(** * react-a-to-z: the tic-tac-toe history tracker and the task reducer

  A shallow embedding of
  - [src/Tutorial_tic-tac-toe/tic-tac-toe/tic-tac-toe.js]
    ([calculateWinner], [Board.handleClick], [Game.handlePlay],
    [Game.jumpTo], the [moves] list), and
  - [src/3. Managing State/taskReducers.js] ([taskReducers]),
  followed by the properties of the written specification that concern
  them. *)

From Stdlib Require Import String Ascii Decimal DecimalString.
From Stdlib Require Import List ZArith Bool Lia Permutation.
Import ListNotations.

Local Open Scope string_scope.
Local Open Scope nat_scope.
Local Open Scope list_scope.

(** ** JavaScript values and arrays *)

Module JS.

(** The primitive values that occur in the two programs. *)
Inductive value : Type :=
| VUndefined
| VNull
| VBool (b : bool)
| VNum (n : Z)
| VStr (s : string).

Definition value_eq_dec (a b : value) : {a = b} + {a <> b}.
Proof.
  decide equality;
    [ apply Bool.bool_dec | apply Z.eq_dec | apply string_dec ].
Defined.

(** [a === b] on primitives. *)
Definition strict_eq (a b : value) : bool :=
  if value_eq_dec a b then true else false.

(** ToBoolean: what [if (v)] and [v && ...] test. *)
Definition truthy (v : value) : bool :=
  match v with
  | VUndefined | VNull => false
  | VBool b => b
  | VNum n => negb (n =? 0)%Z
  | VStr s => negb (String.eqb s "")
  end.

(** [arr[i]]: reading past the end gives [undefined]. *)
Definition get (arr : list value) (i : nat) : value :=
  nth i arr VUndefined.

(** [arr[i] = v] on a fresh copy: in range it overwrites, out of range
    the array grows and the skipped positions read [undefined]. *)
Definition set (i : nat) (v : value) (arr : list value) : list value :=
  if i <? length arr
  then firstn i arr ++ v :: skipn (S i) arr
  else arr ++ repeat VUndefined (i - length arr) ++ [v].

(** [arr[k]] for a number [k] that need not be a valid index. *)
Definition index {A : Type} (arr : list A) (k : Z) : option A :=
  if (k <? 0)%Z then None else nth_error arr (Z.to_nat k).

(** [arr.slice(0, e)]: a negative [e] counts from the end. *)
Definition slice0 {A : Type} (arr : list A) (e : Z) : list A :=
  let len := Z.of_nat (length arr) in
  let fin := if (e <? 0)%Z then Z.max (len + e) 0 else Z.min e len in
  firstn (Z.to_nat fin) arr.

(** [Array(n).fill(v)]. *)
Definition fill (n : nat) (v : value) : list value := repeat v n.

(** Number-to-string conversion of a non-negative integer, as in
    ["..." + move]. *)
Definition dec (n : nat) : string :=
  NilEmpty.string_of_uint (Nat.to_uint n).

(** String conversion of a value, as in ["..." + v]. *)
Definition toString (v : value) : string :=
  match v with
  | VUndefined => "undefined"
  | VNull => "null"
  | VBool true => "true"
  | VBool false => "false"
  | VNum n =>
      if (n <? 0)%Z then ("-" ++ dec (Z.to_nat (- n)))%string
      else dec (Z.to_nat n)
  | VStr s => s
  end.

(** A call either returns or throws. *)
Inductive outcome (A : Type) : Type :=
| Returns (a : A)
| Throws (msg : string).
Arguments Returns {A} a.
Arguments Throws {A} msg.

End JS.
Import JS.

(** ** Tic-tac-toe *)

Module TicTacToe.

Definition board := list value.
Definition line := (nat * nat * nat)%type.

(** The [lines] table of [calculateWinner]. *)
Definition lines : list line :=
  [ (0, 1, 2); (3, 4, 5); (6, 7, 8);
    (0, 3, 6); (1, 4, 7); (2, 5, 8);
    (0, 4, 8); (2, 4, 6) ].

(** The test of the loop body:
    [squares[a] && squares[a] === squares[b] && squares[b] === squares[c]]. *)
Definition lineMatches (squares : board) (l : line) : bool :=
  let '(a, b, c) := l in
  truthy (get squares a)
  && strict_eq (get squares a) (get squares b)
  && strict_eq (get squares b) (get squares c).

(** The [for] loop of [calculateWinner] over a table of lines. *)
Fixpoint scanLines (ls : list line) (squares : board) : value :=
  match ls with
  | [] => VNull
  | (a, b, c) :: rest =>
      if lineMatches squares (a, b, c)
      then get squares a
      else scanLines rest squares
  end.

Definition calculateWinner (squares : board) : value :=
  scanLines lines squares.

(** [Board.handleClick(i)], for the props [xIsNext], [squares], [onPlay].
    The callback works on the state [S] of whoever owns it. *)
Definition handleClick {S : Type} (xIsNext : bool) (squares : board)
    (onPlay : board -> S -> S) (i : nat) (s : S) : S :=
  if truthy (get squares i) || truthy (calculateWinner squares)
  then s
  else
    let nextSquares :=
      if xIsNext then set i (VStr "X") squares
      else set i (VStr "O") squares in
    onPlay nextSquares s.

(** The status line of [Board]. *)
Definition status (xIsNext : bool) (squares : board) : string :=
  let winner := calculateWinner squares in
  if truthy winner
  then ("Winner: " ++ toString winner)%string
  else ("Next Player: " ++ (if xIsNext then "X" else "O"))%string.

(** The two state variables of [Game]. *)
Record GameState : Type := mkGame {
  history : list board;
  currentMove : Z
}.

(** [useState([Array(9).fill(null)])], [useState(0)]. *)
Definition initialState : GameState :=
  mkGame [fill 9 VNull] 0.

(** [const xIsNext = currentMove % 2 === 0]. *)
Definition xIsNext (currentMove : Z) : bool :=
  (Z.rem currentMove 2 =? 0)%Z.

(** [const currentSquares = history[currentMove]]. *)
Definition currentSquares (g : GameState) : option board :=
  index (history g) (currentMove g).

Definition handlePlay (nextSquares : board) (g : GameState) : GameState :=
  let nextHistory := slice0 (history g) (currentMove g + 1) ++ [nextSquares] in
  mkGame nextHistory (Z.of_nat (length nextHistory) - 1).

Definition jumpTo (nextMove : Z) (g : GameState) : GameState :=
  mkGame (history g) nextMove.

(** One [<li>] of the [moves] list. *)
Inductive moveItem : Type :=
| YouAreAt (key : nat) (text : string)
| GoToButton (key : nat) (target : Z) (description : string).

(** The [description] computed by the [map] callback. *)
Definition description (move : nat) : string :=
  if 0 <? move then ("Go to Move #" ++ dec move)%string
  else "Go to Game Start".

Definition moveEntry (currentMove : Z) (move : nat) : moveItem :=
  if (currentMove =? Z.of_nat move)%Z
  then YouAreAt move ("You are at move # " ++ dec move)%string
  else GoToButton move (Z.of_nat move) (description move).

(** [history.map((squares, move) => ...)]: the callback ignores
    [squares] and uses the position only. *)
Fixpoint mapIndexed {A B : Type} (f : A -> nat -> B) (from : nat)
    (l : list A) : list B :=
  match l with
  | [] => []
  | x :: rest => f x from :: mapIndexed f (S from) rest
  end.

Definition moves (g : GameState) : list moveItem :=
  mapIndexed (fun _ move => moveEntry (currentMove g) move) 0 (history g).

(** What the user can do to a rendered game. *)
Inductive event : Type :=
| Click (i : nat)
| Jump (nextMove : Z).

(** One event on a rendered game.  [Board] reads [squares[a]] while it
    renders, so a game whose cursor selects no board has no board to
    click on: that is a [TypeError]. *)
Definition dispatch (e : event) (g : GameState) : outcome GameState :=
  match e with
  | Jump nextMove => Returns (jumpTo nextMove g)
  | Click i =>
      match currentSquares g with
      | None => Throws "TypeError"
      | Some squares =>
          Returns (handleClick (xIsNext (currentMove g)) squares handlePlay i g)
      end
  end.

(** A run of events, stopping at the first one that throws. *)
Fixpoint run (es : list event) (g : GameState) : outcome GameState :=
  match es with
  | [] => Returns g
  | e :: rest =>
      match dispatch e g with
      | Returns g' => run rest g'
      | Throws msg => Throws msg
      end
  end.

End TicTacToe.
Import TicTacToe.

(** ** The task reducer *)

Module Tasks.

(** A task object [{id, text, done}]. *)
Record task : Type := mkTask {
  id : value;
  text : value;
  done : value
}.

(** An action object: [type] and the fields the reducer reads.  A field
    that the object lacks reads [undefined]; [task] is an object or
    absent. *)
Record action : Type := mkAction {
  type : value;
  actionId : value;
  actionText : value;
  actionTask : option task
}.

(** [switch (action.type)] picks the first [case] label that is [===]
    to the scrutinee. *)
Definition isCase (scrutinee : value) (label : string) : bool :=
  strict_eq scrutinee (VStr label).

(** [taskReducers(tasks, action)].  [Returns None] is a call that
    ends without a [return]: its value is [undefined].  In the ["edit"]
    case [action.task.id] is read once per task, so an absent
    [action.task] is a [TypeError] as soon as there is a task. *)
Definition taskReducers (tasks : list task) (a : action)
    : outcome (option (list task)) :=
  if isCase (type a) "add" then
    Returns (Some (tasks ++ [mkTask (actionId a) (actionText a) (VBool false)]))
  else if isCase (type a) "remove" then
    Returns (Some (filter (fun t => negb (strict_eq (id t) (actionId a))) tasks))
  else if isCase (type a) "edit" then
    match actionTask a, tasks with
    | Some edited, _ =>
        Returns (Some (map (fun t =>
                              if strict_eq (id t) (id edited) then edited else t)
                           tasks))
    | None, [] => Returns (Some [])
    | None, _ :: _ => Throws "TypeError"
    end
  else if isCase (type a) "default" then
    Throws ("Unknown action: " ++ toString (type a))%string
  else
    Returns None.

End Tasks.

(** ** The task list component and its reducer *)

Module TaskApp.

Import Tasks.

(** [tasksReducer(tasks, action)], the reducer with the action types
    ["added"], ["changed"], ["deleted"] and a [default] clause.  It returns
    an array or throws; as in [taskReducers], [action.task.id] is read
    once per task. *)
Definition tasksReducer (tasks : list task) (a : action)
    : outcome (list task) :=
  if isCase (type a) "added" then
    Returns (tasks ++ [mkTask (actionId a) (actionText a) (VBool false)])
  else if isCase (type a) "changed" then
    match actionTask a, tasks with
    | Some edited, _ =>
        Returns (map (fun t =>
                        if strict_eq (id t) (id edited) then edited else t)
                     tasks)
    | None, [] => Returns []
    | None, _ :: _ => Throws "TypeError"
    end
  else if isCase (type a) "deleted" then
    Returns (filter (fun t => negb (strict_eq (id t) (actionId a))) tasks)
  else
    Throws ("Unknown action: " ++ toString (type a))%string.

(** The state of [TaskApp]: the [tasks] state variable and the module-level
    counter [nextId]. *)
Record AppState : Type := mkApp {
  tasks : list task;
  nextId : Z
}.

Definition initialTasks : list task :=
  [ mkTask (VNum 0) (VStr "Visit Kafka Museum") (VBool true);
    mkTask (VNum 1) (VStr "Watch a puppet show") (VBool false);
    mkTask (VNum 2) (VStr "Lennon Wall pic") (VBool false) ].

(** [let nextId = 3], [useState(initialTasks)]. *)
Definition initialApp : AppState := mkApp initialTasks 3.

(** The value of [nextId] after [nextId++], for a counter between 0 and
    2^53: a number that is an integer below 2^53 has an exact successor,
    and 2^53 + 1 rounds back to 2^53. *)
Definition postIncrement (n : Z) : Z :=
  if (n <? 2 ^ 53)%Z then (n + 1)%Z else n.

(** The calls the child components make: [onAddTask(text)],
    [onChangeTask(task)], [onDeleteTask(taskId)]. *)
Inductive appEvent : Type :=
| AddTask (text : value)
| ChangeTask (task : option task)
| DeleteTask (taskId : value).

(** The action object each handler of the reducer version passes to
    [dispatch]. *)
Definition actionOf (e : appEvent) (st : AppState) : action :=
  match e with
  | AddTask text => mkAction (VStr "added") (VNum (nextId st)) text None
  | ChangeTask task => mkAction (VStr "changed") VUndefined VUndefined task
  | DeleteTask taskId => mkAction (VStr "deleted") taskId VUndefined None
  end.

Definition counterAfter (e : appEvent) (st : AppState) : Z :=
  match e with
  | AddTask _ => postIncrement (nextId st)
  | _ => nextId st
  end.

(** One handler call of the [useReducer] version: the handler builds the
    action, [dispatch] runs the reducer on the current tasks. *)
Definition dispatchStep (e : appEvent) (st : AppState) : outcome AppState :=
  match tasksReducer (tasks st) (actionOf e st) with
  | Returns nextTasks => Returns (mkApp nextTasks (counterAfter e st))
  | Throws msg => Throws msg
  end.

(** One handler call of the [useState] version: [handleAddTask],
    [handleChangeTask], [handleDeleteTask] compute the array they pass to
    [setTasks]. *)
Definition setTasksStep (e : appEvent) (st : AppState) : outcome AppState :=
  match e with
  | AddTask text =>
      Returns (mkApp (tasks st ++ [mkTask (VNum (nextId st)) text (VBool false)])
                     (postIncrement (nextId st)))
  | ChangeTask task =>
      match task, tasks st with
      | Some edited, _ =>
          Returns (mkApp (map (fun t =>
                                 if strict_eq (id t) (id edited) then edited else t)
                              (tasks st))
                         (nextId st))
      | None, [] => Returns (mkApp [] (nextId st))
      | None, _ :: _ => Throws "TypeError"
      end
  | DeleteTask taskId =>
      Returns (mkApp (filter (fun t => negb (strict_eq (id t) taskId)) (tasks st))
                     (nextId st))
  end.

(** A run of handler calls, stopping at the first one that throws. *)
Fixpoint runApp (es : list appEvent) (st : AppState) : outcome AppState :=
  match es with
  | [] => Returns st
  | e :: rest =>
      match dispatchStep e st with
      | Returns st' => runApp rest st'
      | Throws msg => Throws msg
      end
  end.

End TaskApp.

(** ** The filterable product table *)

Module ProductTable.

(** A product object [{category, price, stocked, name}]; [name] is a
    string, since the table calls [name.toLowerCase()]. *)
Record product : Type := mkProduct {
  category : value;
  price : value;
  stocked : value;
  name : string
}.

(** The elements pushed to [rows], with their props and [key]. *)
Inductive row : Type :=
| ProductCategoryRow (category : value) (key : value)
| ProductRow (product : product) (key : string).

Section Builtins.

(** [String.prototype.toLowerCase], taken as given. *)
Variable toLowerCase : string -> string.

(** [haystack.indexOf(needle) === -1]. *)
Definition indexOfIsMinusOne (haystack needle : string) : bool :=
  match String.index 0 needle haystack with
  | Some _ => false
  | None => true
  end.

(** The callback of [products.forEach]: it works on [rows] and
    [lastCategory]. *)
Definition visit (filterText : string) (inStockOnly : bool)
    (acc : list row * value) (p : product) : list row * value :=
  let '(rows, lastCategory) := acc in
  if indexOfIsMinusOne (toLowerCase (name p)) (toLowerCase filterText) then acc
  else if inStockOnly && negb (truthy (stocked p)) then acc
  else
    let rows1 :=
      if negb (strict_eq (category p) lastCategory)
      then rows ++ [ProductCategoryRow (category p) (category p)]
      else rows in
    (rows1 ++ [ProductRow p (name p)], category p).

(** The [rows] that [ProductTable] puts in the table body. *)
Definition tableRows (products : list product) (filterText : string)
    (inStockOnly : bool) : list row :=
  fst (fold_left (visit filterText inStockOnly) products ([], VNull)).

End Builtins.

(** The state of [FilterableProductTable] and its initial value. *)
Record FilterState : Type := mkFilter {
  filterText : string;
  inStockOnly : bool
}.

Definition initialFilter : FilterState := mkFilter "" false.

(** [PRODUCTS]. *)
Definition PRODUCTS : list product :=
  [ mkProduct (VStr "Fruits") (VStr "$1") (VBool true) "Apple";
    mkProduct (VStr "Fruits") (VStr "$1") (VBool true) "Dragonfruit";
    mkProduct (VStr "Fruits") (VStr "$2") (VBool false) "Passionfruit";
    mkProduct (VStr "Vegetables") (VStr "$2") (VBool true) "Spinach";
    mkProduct (VStr "Vegetables") (VStr "$4") (VBool false) "Pumpkin";
    mkProduct (VStr "Vegetables") (VStr "$1") (VBool true) "Peas" ].

End ProductTable.

(** * Vocabulary of the properties *)

(** The mark that the player to move puts down at cursor [c]. *)
Definition markAt (c : Z) : value :=
  if Z.even c then VStr "X" else VStr "O".

(** The end-to-end scenario of the specification: X plays 0, O plays 4,
    X plays 1, O plays 8, X plays 2. *)
Definition topRowGame : list event :=
  [Click 0; Click 4; Click 1; Click 8; Click 2].

Definition topRowBoard : board :=
  [VStr "X"; VStr "X"; VStr "X"; VNull; VStr "O"; VNull; VNull; VNull; VStr "O"].

(** The state that game ends in. *)
Definition topRowWon : GameState :=
  Eval cbv in
    match run topRowGame initialState with
    | Returns won => won
    | Throws _ => initialState
    end.

(** All three cells of line [l] hold [m]. *)
Definition allThree (squares : board) (l : line) (m : value) : Prop :=
  let '(a, b, c) := l in
  get squares a = m /\ get squares b = m /\ get squares c = m.

Definition firstCell (l : line) : nat :=
  let '(a, _, _) := l in a.

Definition rows : list line := [ (0, 1, 2); (3, 4, 5); (6, 7, 8) ].
Definition columns : list line := [ (0, 3, 6); (1, 4, 7); (2, 5, 8) ].
Definition diagonals : list line := [ (0, 4, 8); (2, 4, 6) ].

(** The board that [handleClick i] hands to [onPlay], if it does. *)
Definition played (xn : bool) (squares : board) (i : nat) : option board :=
  handleClick xn squares (fun nextSquares _ => Some nextSquares) i None.

(** [legalBoard n b]: [b] is reached from the empty board by [n] accepted
    clicks on cells 0..8, X and O taking turns as [xIsNext] says. *)
Inductive legalBoard : nat -> board -> Prop :=
| legal_start : legalBoard 0 (fill 9 VNull)
| legal_move (n : nat) (squares next : board) (i : nat) :
    legalBoard n squares ->
    i <= 8 ->
    played (xIsNext (Z.of_nat n)) squares i = Some next ->
    legalBoard (S n) next.

(** Filled lines of a board all carry one mark. *)
Definition oneWinningMark (squares : board) : Prop :=
  forall (l1 l2 : line) (m1 m2 : value),
    In l1 lines -> In l2 lines ->
    truthy m1 = true -> truthy m2 = true ->
    allThree squares l1 m1 -> allThree squares l2 m2 ->
    m1 = m2.

(** The events the rendered page can produce: a click on one of the nine
    squares, a jump to an entry of the history. *)
Definition allowed (e : event) (g : GameState) : Prop :=
  match e with
  | Click i => i <= 8
  | Jump k => (0 <= k < Z.of_nat (length (history g)))%Z
  end.

Inductive reachable : GameState -> Prop :=
| reach_init : reachable initialState
| reach_step (g g' : GameState) (e : event) :
    reachable g -> allowed e g -> dispatch e g = Returns g' ->
    reachable g'.

Definition isMark (v : value) : Prop := v = VStr "X" \/ v = VStr "O".
Definition isCell (v : value) : Prop := v = VNull \/ isMark v.

(** [b'] is [b] with one empty cell turned into a mark and every other
    cell as it was. *)
Definition oneCellFilled (b b' : board) : Prop :=
  length b' = length b
  /\ exists k,
       k < length b
       /\ get b k = VNull
       /\ isMark (get b' k)
       /\ forall j, j <> k -> get b' j = get b j.

Definition nineCells (b : board) : Prop :=
  length b = 9 /\ forall j, j < 9 -> isCell (get b j).

Record wellFormed (g : GameState) : Prop := mkWellFormed {
  wf_cursor : (0 <= currentMove g < Z.of_nat (length (history g)))%Z;
  wf_boards : forall i b, nth_error (history g) i = Some b -> nineCells b;
  wf_steps : forall i b b',
      nth_error (history g) i = Some b ->
      nth_error (history g) (S i) = Some b' ->
      oneCellFilled b b'
}.

(** Running a list of events that are all allowed where they occur. *)
Definition allowedb (e : event) (g : GameState) : bool :=
  match e with
  | Click i => i <=? 8
  | Jump k => ((0 <=? k) && (k <? Z.of_nat (length (history g))))%Z
  end.

Fixpoint runAllowed (es : list event) (g : GameState) : option GameState :=
  match es with
  | [] => Some g
  | e :: rest =>
      if allowedb e g then
        match dispatch e g with
        | Returns g' => runAllowed rest g'
        | Throws _ => None
        end
      else None
  end.

(** The text one entry shows. *)
Definition label (m : moveItem) : string :=
  match m with
  | YouAreAt _ text => text
  | GoToButton _ _ description => description
  end.

(** How many cells of a board hold [m]. *)
Definition countMark (m : value) (b : board) : nat :=
  count_occ value_eq_dec b m.

(** The mark of the player who makes move number [n] (the first move is
    number 0), as [handleClick] picks it from [xIsNext]. *)
Definition moverMark (n : nat) : value :=
  VStr (if xIsNext (Z.of_nat n) then "X" else "O").

(** Each stored board leads to the next one by an accepted click. *)
Definition playedSteps (g : GameState) : Prop :=
  forall k b b',
    nth_error (history g) k = Some b ->
    nth_error (history g) (S k) = Some b' ->
    exists i, i <= 8 /\ played (xIsNext (Z.of_nat k)) b i = Some b'.

(** The [key] of an entry of the list of moves. *)
Definition keyOf (m : moveItem) : nat :=
  match m with
  | YouAreAt key _ => key
  | GoToButton key _ _ => key
  end.

(** A drawn game, X0 O1 X2 O4 X3 O5 X7 O6 X8, and the state it ends in. *)
Definition drawnGame : list event :=
  [Click 0; Click 1; Click 2; Click 4; Click 3; Click 5;
   Click 7; Click 6; Click 8].

Definition drawnBoard : board :=
  [VStr "X"; VStr "O"; VStr "X"; VStr "X"; VStr "O"; VStr "O";
   VStr "O"; VStr "X"; VStr "X"].

Definition drawnState : GameState :=
  Eval cbv in
    match run drawnGame initialState with
    | Returns g => g
    | Throws _ => initialState
    end.

(** The ids of a task list, in order. *)
Definition taskIds (ts : list Tasks.task) : list value :=
  map Tasks.id ts.

(** The ids of the tasks are distinct numbers below the counter. *)
Definition freshIds (st : TaskApp.AppState) : Prop :=
  NoDup (taskIds (TaskApp.tasks st))
  /\ forall t, In t (TaskApp.tasks st) ->
              exists k, Tasks.id t = VNum k /\ (k < TaskApp.nextId st)%Z.

(** The products that pass both tests of the table. *)
Definition shownProduct (toLowerCase : string -> string) (filterText : string)
    (inStockOnly : bool) (p : ProductTable.product) : bool :=
  negb (ProductTable.indexOfIsMinusOne
          (toLowerCase (ProductTable.name p)) (toLowerCase filterText))
  && (negb inStockOnly || truthy (ProductTable.stocked p)).

(** The products of the product rows, in order. *)
Fixpoint rowProducts (rows : list ProductTable.row) : list ProductTable.product :=
  match rows with
  | [] => []
  | ProductTable.ProductCategoryRow _ _ :: rest => rowProducts rest
  | ProductTable.ProductRow p _ :: rest => p :: rowProducts rest
  end.

(** The categories of the header rows, in order. *)
Fixpoint rowHeaders (rows : list ProductTable.row) : list value :=
  match rows with
  | [] => []
  | ProductTable.ProductCategoryRow c _ :: rest => c :: rowHeaders rest
  | ProductTable.ProductRow _ _ :: rest => rowHeaders rest
  end.

(** The rows for a list of products that are all shown, after a product of
    category [lastCategory]. *)
Fixpoint groupedRows (lastCategory : value) (ps : list ProductTable.product)
    : list ProductTable.row :=
  match ps with
  | [] => []
  | p :: rest =>
      (if negb (strict_eq (ProductTable.category p) lastCategory)
       then [ProductTable.ProductCategoryRow (ProductTable.category p)
                                             (ProductTable.category p)]
       else [])
      ++ ProductTable.ProductRow p (ProductTable.name p)
         :: groupedRows (ProductTable.category p) rest
  end.

(** ASCII lower case, an instance of [toLowerCase] for ASCII strings. *)
Definition asciiLower (c : ascii) : ascii :=
  let n := nat_of_ascii c in
  if (65 <=? n) && (n <=? 90) then ascii_of_nat (n + 32) else c.

Fixpoint asciiToLowerCase (s : string) : string :=
  match s with
  | EmptyString => EmptyString
  | String c rest => String (asciiLower c) (asciiToLowerCase rest)
  end.


(** * Properties *)

(** ** Array facts *)

Section ArrayFacts.

Lemma get_set_same (i : nat) (v : value) (arr : list value) :
  get (set i v arr) i = v.
Proof.
  unfold get, set.
  destruct (Nat.ltb_spec i (length arr)) as [Hlt | Hge].
  - rewrite app_nth2; rewrite length_firstn; [ | lia ].
    replace (i - Nat.min i (length arr)) with 0 by lia.
    reflexivity.
  - rewrite app_nth2 by lia.
    rewrite app_nth2; rewrite repeat_length; [ | lia ].
    replace (i - length arr - (i - length arr)) with 0 by lia.
    reflexivity.
Qed.

Lemma nth_overwrite_other (arr : list value) :
  forall (i j : nat) (v d : value),
    i < length arr -> j <> i ->
    nth j (firstn i arr ++ v :: skipn (S i) arr) d = nth j arr d.
Proof.
  induction arr as [ | x rest IH]; intros i j v d Hlt Hne.
  - simpl in Hlt. lia.
  - destruct i as [ | i]; destruct j as [ | j]; try reflexivity.
    + congruence.
    + simpl. simpl in Hlt. apply IH; lia.
Qed.

Lemma get_set_other (i j : nat) (v : value) (arr : list value) :
  j <> i -> get (set i v arr) j = get arr j.
Proof.
  intros Hne. unfold get, set.
  destruct (Nat.ltb_spec i (length arr)) as [Hlt | Hge].
  - apply nth_overwrite_other; assumption.
  - destruct (Nat.lt_ge_cases j (length arr)) as [Hj | Hj].
    + rewrite app_nth1 by lia. reflexivity.
    + rewrite app_nth2 by lia.
      rewrite (nth_overflow arr) by lia.
      destruct (Nat.lt_ge_cases (j - length arr) (i - length arr)) as [Hk | Hk].
      * rewrite app_nth1 by (rewrite repeat_length; lia).
        apply nth_repeat_lt. lia.
      * rewrite app_nth2 by (rewrite repeat_length; lia).
        rewrite repeat_length.
        destruct (j - length arr - (i - length arr)) as [ | k] eqn:Hd; [ lia | ].
        simpl. destruct k; reflexivity.
Qed.

Lemma length_set_in_range (i : nat) (v : value) (arr : list value) :
  i < length arr -> length (set i v arr) = length arr.
Proof.
  intros Hlt. unfold set.
  destruct (Nat.ltb_spec i (length arr)) as [_ | Hge]; [ | lia ].
  rewrite length_app, length_firstn. cbn [length].
  rewrite length_skipn. lia.
Qed.

Lemma index_in_range {A : Type} (arr : list A) (k : Z) (x : A) :
  index arr k = Some x ->
  (0 <= k < Z.of_nat (length arr))%Z /\ nth_error arr (Z.to_nat k) = Some x.
Proof.
  unfold index. destruct (Z.ltb_spec k 0) as [Hneg | Hpos]; [ discriminate | ].
  intros Hnth. split; [ | exact Hnth ].
  assert (Z.to_nat k < length arr) by (apply nth_error_Some; congruence).
  lia.
Qed.

Lemma index_out_of_range {A : Type} (arr : list A) (k : Z) :
  ~ (0 <= k < Z.of_nat (length arr))%Z -> index arr k = None.
Proof.
  intros Hout. unfold index.
  destruct (Z.ltb_spec k 0) as [Hneg | Hpos]; [ reflexivity | ].
  apply nth_error_None. lia.
Qed.

Lemma slice0_in_range {A : Type} (arr : list A) (c : Z) :
  (0 <= c < Z.of_nat (length arr))%Z ->
  slice0 arr (c + 1) = firstn (S (Z.to_nat c)) arr.
Proof.
  intros Hc. unfold slice0.
  destruct (Z.ltb_spec (c + 1) 0) as [Hneg | Hpos]; [ lia | ].
  f_equal. lia.
Qed.

End ArrayFacts.

(** ** The history tracker: [handlePlay], [jumpTo] and the turn *)

Section HistoryTracker.

Variable g : GameState.

Lemma handlePlay_in_range (nextSquares : board) :
  (0 <= currentMove g < Z.of_nat (length (history g)))%Z ->
  history (handlePlay nextSquares g)
  = firstn (S (Z.to_nat (currentMove g))) (history g) ++ [nextSquares]
  /\ currentMove (handlePlay nextSquares g) = (currentMove g + 1)%Z.
Proof.
  intros Hc. unfold handlePlay. cbn [history currentMove].
  rewrite slice0_in_range by exact Hc.
  split; [ reflexivity | ].
  rewrite length_app, length_firstn. cbn [length]. lia.
Qed.

(** C1.  With a history of length at least 1 and the cursor [c] in range,
    [handlePlay board] keeps the entries [0..c], drops the rest and appends
    [board]: the new history has [c + 2] entries, its first [c + 1] are
    the old ones, its last one is [board], and the cursor becomes
    [c + 1]. *)
Theorem handlePlay_replaces_suffix (nextSquares : board) (c : Z) :
  1 <= length (history g) ->
  currentMove g = c ->
  (0 <= c <= Z.of_nat (length (history g)) - 1)%Z ->
  let g' := handlePlay nextSquares g in
  history g' = firstn (Z.to_nat c + 1) (history g) ++ [nextSquares]
  /\ Z.of_nat (length (history g')) = (c + 2)%Z
  /\ firstn (Z.to_nat c + 1) (history g')
     = firstn (Z.to_nat c + 1) (history g)
  /\ length (firstn (Z.to_nat c + 1) (history g)) = Z.to_nat c + 1
  /\ last (history g') [] = nextSquares
  /\ index (history g') (c + 1) = Some nextSquares
  /\ currentMove g' = (c + 1)%Z.
Proof.
  intros Hlen Hcur Hc g'.
  assert (Hkeep : length (firstn (Z.to_nat c + 1) (history g))
                  = Z.to_nat c + 1)
    by (rewrite length_firstn; lia).
  destruct (handlePlay_in_range nextSquares) as [Hhist Hmove]; [ lia | ].
  fold g' in Hhist, Hmove.
  rewrite Hcur, <- Nat.add_1_r in Hhist. rewrite Hcur in Hmove.
  assert (Hlen' : length (history g') = Z.to_nat c + 2).
  { rewrite Hhist, length_app, Hkeep. cbn [length]. lia. }
  repeat split.
  - exact Hhist.
  - lia.
  - rewrite Hhist. rewrite firstn_app, Hkeep.
    replace (Z.to_nat c + 1 - (Z.to_nat c + 1)) with 0 by lia.
    rewrite firstn_firstn, Nat.min_id. simpl. apply app_nil_r.
  - exact Hkeep.
  - rewrite Hhist. apply last_last.
  - unfold index. destruct (Z.ltb_spec (c + 1) 0) as [Hneg | _]; [ lia | ].
    rewrite Hhist. rewrite nth_error_app2 by lia.
    rewrite Hkeep.
    replace (Z.to_nat (c + 1) - (Z.to_nat c + 1)) with 0 by lia.
    reflexivity.
  - exact Hmove.
Qed.

(** C7.  An in-range [jumpTo k] moves the cursor to [k] and leaves the
    history as it was: same length, same snapshot at every position. *)
Theorem jumpTo_keeps_history (k : Z) :
  (0 <= k < Z.of_nat (length (history g)))%Z ->
  history (jumpTo k g) = history g
  /\ length (history (jumpTo k g)) = length (history g)
  /\ (forall i : nat,
        nth_error (history (jumpTo k g)) i = nth_error (history g) i)
  /\ currentMove (jumpTo k g) = k.
Proof.
  intros _. unfold jumpTo. cbn [history currentMove]. auto.
Qed.

(** C2, as the code has it.  [jumpTo] has no range check: for an index
    outside [[0, length history - 1]] the event raises nothing, the cursor
    becomes that index, the history is untouched, and the cursor then
    selects no board. *)
Theorem jumpTo_out_of_range_sets_cursor (k : Z) :
  ~ (0 <= k < Z.of_nat (length (history g)))%Z ->
  dispatch (Jump k) g = Returns (jumpTo k g)
  /\ currentMove (jumpTo k g) = k
  /\ history (jumpTo k g) = history g
  /\ currentSquares (jumpTo k g) = None.
Proof.
  intros Hout. repeat split.
  unfold currentSquares, jumpTo. cbn [history currentMove].
  apply index_out_of_range. exact Hout.
Qed.

End HistoryTracker.

(** The example of the specification: five entries, back to entry 1, then
    a move. *)
Lemma handlePlay_replaces_suffix_witness :
  let B := fun m : Z => [VNum m] in
  let g := jumpTo 1 (mkGame [B 0; B 1; B 2; B 3; B 4]%Z 4) in
  history (handlePlay (B 11%Z) g) = [B 0; B 1; B 11]%Z
  /\ currentMove (handlePlay (B 11%Z) g) = 2%Z.
Proof.
  intros B g.
  destruct (handlePlay_replaces_suffix g (B 11%Z) 1%Z)
    as (Hh & _ & _ & _ & _ & _ & Hc).
  - simpl. lia.
  - reflexivity.
  - simpl. lia.
  - split; [ exact Hh | exact Hc ].
Defined.

Lemma jumpTo_keeps_history_witness :
  let g := mkGame [fill 9 VNull; set 0 (VStr "X") (fill 9 VNull)] 1 in
  history (jumpTo 0 g) = history g /\ currentMove (jumpTo 0 g) = 0%Z.
Proof.
  intros g.
  destruct (jumpTo_keeps_history g 0%Z) as (Hh & _ & _ & Hc).
  - simpl. lia.
  - split; [ exact Hh | exact Hc ].
Defined.

Lemma jumpTo_out_of_range_sets_cursor_witness :
  dispatch (Jump 7) initialState = Returns (jumpTo 7 initialState)
  /\ currentSquares (jumpTo 7 initialState) = None.
Proof.
  destruct (jumpTo_out_of_range_sets_cursor initialState 7%Z) as (Hd & _ & _ & Hs).
  - simpl. lia.
  - split; [ exact Hd | exact Hs ].
Defined.

(** C2 fails as written: jumping to 7 or to -1 in a one-entry history
    returns normally with the cursor on the invalid index. *)
Lemma jumpTo_out_of_range_counterexample :
  ~ (forall (g : GameState) (k : Z),
        ~ (0 <= k < Z.of_nat (length (history g)))%Z ->
        exists msg, dispatch (Jump k) g = Throws msg)
  /\ dispatch (Jump 7) initialState = Returns (mkGame [fill 9 VNull] 7)
  /\ dispatch (Jump (-1)) initialState = Returns (mkGame [fill 9 VNull] (-1))
  /\ length (history initialState) = 1.
Proof.
  split; [ | repeat split ].
  intros Hclaim.
  destruct (Hclaim initialState 7%Z) as [msg Hmsg].
  - simpl. lia.
  - discriminate Hmsg.
Qed.

(** ** Whose turn it is *)

Section Turn.

Lemma xIsNext_even (c : Z) : (0 <= c)%Z -> xIsNext c = Z.even c.
Proof.
  intros Hc. unfold xIsNext.
  rewrite Z.rem_mod_nonneg by lia.
  symmetry. apply Zeven_mod.
Qed.

Lemma handleClick_accepts {S : Type} (xn : bool) (squares : board)
    (onPlay : board -> S -> S) (i : nat) (s : S) :
  truthy (get squares i) = false ->
  truthy (calculateWinner squares) = false ->
  handleClick xn squares onPlay i s
  = onPlay (set i (VStr (if xn then "X" else "O")) squares) s.
Proof.
  intros Hfree Hnone. unfold handleClick.
  rewrite Hfree, Hnone. simpl. destruct xn; reflexivity.
Qed.

(** C5.  For a cursor [c >= 0], [xIsNext] is true exactly when [c] is
    even and false exactly when [c] is odd, so it alternates
    0 -> X, 1 -> O, 2 -> X, ...; the game state holds no turn field: the
    mark an accepted click puts down and the name in the status line are
    both computed from the cursor. *)
Theorem next_player_from_cursor (c : Z) :
  (0 <= c)%Z ->
  (xIsNext c = true <-> Z.even c = true)
  /\ (xIsNext c = false <-> Z.odd c = true)
  /\ xIsNext (c + 1) = negb (xIsNext c)
  /\ xIsNext 0 = true /\ xIsNext 1 = false /\ xIsNext 2 = true
  /\ (forall (g : GameState) (squares : board) (i : nat),
        currentMove g = c ->
        currentSquares g = Some squares ->
        truthy (get squares i) = false ->
        truthy (calculateWinner squares) = false ->
        dispatch (Click i) g
        = Returns (handlePlay (set i (markAt c) squares) g)
        /\ status (xIsNext (currentMove g)) squares
           = ("Next Player: " ++ (if Z.even c then "X" else "O"))%string).
Proof.
  intros Hc.
  assert (He := xIsNext_even c Hc).
  assert (He1 := xIsNext_even (c + 1) ltac:(lia)).
  split; [ rewrite He; tauto | ].
  split; [ rewrite He, <- Z.negb_even; destruct (Z.even c); simpl; intuition congruence | ].
  split; [ rewrite He1, He, Z.add_1_r, Z.even_succ, <- Z.negb_even; reflexivity | ].
  do 3 (split; [ reflexivity | ]).
  intros g squares i Hcur Hsq Hfree Hnone. split.
  - unfold dispatch. rewrite Hsq, Hcur.
    rewrite handleClick_accepts by assumption.
    rewrite He. unfold markAt. destruct (Z.even c); reflexivity.
  - unfold status. rewrite Hnone, Hcur, He. reflexivity.
Qed.

End Turn.

Lemma next_player_from_cursor_witness :
  xIsNext 3 = false
  /\ dispatch (Click 4) (mkGame [fill 9 VNull; fill 9 VNull; fill 9 VNull; fill 9 VNull] 3)
     = Returns (mkGame [fill 9 VNull; fill 9 VNull; fill 9 VNull; fill 9 VNull;
                        set 4 (VStr "O") (fill 9 VNull)] 4).
Proof.
  destruct (next_player_from_cursor 3%Z) as (_ & Hodd & _ & _ & _ & _ & Hclick).
  - lia.
  - split.
    + apply Hodd. reflexivity.
    + exact (proj1 (Hclick (mkGame [fill 9 VNull; fill 9 VNull; fill 9 VNull;
                                    fill 9 VNull] 3)
                           (fill 9 VNull) 4 eq_refl eq_refl eq_refl eq_refl)).
Defined.

(** ** Rejected clicks *)

Section RejectedClicks.

Lemma handleClick_rejects {S : Type} (xn : bool) (squares : board)
    (onPlay : board -> S -> S) (i : nat) (s : S) :
  truthy (get squares i) = true \/ truthy (calculateWinner squares) = true ->
  handleClick xn squares onPlay i s = s.
Proof.
  intros Hguard. unfold handleClick.
  destruct Hguard as [Hocc | Hwon].
  - rewrite Hocc. reflexivity.
  - rewrite Hwon, orb_true_r. reflexivity.
Qed.

(** C6.  When cell [i] (0..8) of the current board is occupied or the
    board has a winner, [handleClick i] returns at once: whatever [onPlay]
    is, it is not called (the owner's state comes back as it was, and a
    callback that counts its calls still reads 0), the click raises
    nothing, and history and cursor are the same; after the game
    0, 4, 1, 8, 2, which X wins on the top row, every further click is
    such a no-op. *)
Theorem handleClick_noop_when_occupied_or_won
    (xn : bool) (squares : board) (i : nat) :
  i <= 8 ->
  truthy (get squares i) = true \/ truthy (calculateWinner squares) = true ->
  (forall (S : Type) (onPlay : board -> S -> S) (s : S),
      handleClick xn squares onPlay i s = s)
  /\ handleClick xn squares (fun _ calls => calls + 1) i 0 = 0
  /\ (forall g : GameState,
        currentSquares g = Some squares ->
        dispatch (Click i) g = Returns g)
  /\ (exists won : GameState,
        run topRowGame initialState = Returns won
        /\ currentSquares won = Some topRowBoard
        /\ calculateWinner topRowBoard = VStr "X"
        /\ forall j : nat, dispatch (Click j) won = Returns won).
Proof.
  intros Hi Hguard. repeat split.
  - intros S onPlay s. apply handleClick_rejects. exact Hguard.
  - apply handleClick_rejects. exact Hguard.
  - intros g Hcur. unfold dispatch. rewrite Hcur.
    f_equal. apply handleClick_rejects. exact Hguard.
  - exists topRowWon.
    split; [ reflexivity | ].
    split; [ reflexivity | ].
    split; [ reflexivity | ].
    intros j. unfold dispatch.
    change (currentSquares topRowWon) with (Some topRowBoard).
    cbv iota. f_equal. apply handleClick_rejects. right. reflexivity.
Qed.

End RejectedClicks.

Lemma handleClick_noop_when_occupied_or_won_witness :
  let g := mkGame [fill 9 VNull; set 3 (VStr "X") (fill 9 VNull)] 1 in
  dispatch (Click 3) g = Returns g.
Proof.
  intros g.
  destruct (handleClick_noop_when_occupied_or_won
              false (set 3 (VStr "X") (fill 9 VNull)) 3) as (_ & _ & Hg & _).
  - lia.
  - left. reflexivity.
  - apply Hg. reflexivity.
Defined.

(** ** The winner *)

Section Winner.

Lemma strict_eq_true (a b : value) : strict_eq a b = true <-> a = b.
Proof.
  unfold strict_eq. destruct (value_eq_dec a b); split; congruence.
Qed.

Lemma lineMatches_allThree (squares : board) (l : line) :
  lineMatches squares l = true
  <-> truthy (get squares (firstCell l)) = true
      /\ allThree squares l (get squares (firstCell l)).
Proof.
  destruct l as [[a b] c]. unfold lineMatches, allThree, firstCell.
  rewrite !andb_true_iff, !strict_eq_true.
  split.
  - intros [[Ht Hab] Hbc]. repeat split; congruence.
  - intros [Ht (_ & Hb & Hc)]. repeat split; congruence.
Qed.

Lemma allThree_lineMatches (squares : board) (l : line) (m : value) :
  truthy m = true -> allThree squares l m ->
  lineMatches squares l = true /\ get squares (firstCell l) = m.
Proof.
  intros Ht Hall.
  assert (Hfirst : get squares (firstCell l) = m)
    by (destruct l as [[a b] c]; apply Hall).
  split; [ | exact Hfirst ].
  apply lineMatches_allThree. rewrite Hfirst. auto.
Qed.

Lemma scanLines_cons (l : line) (rest : list line) (squares : board) :
  scanLines (l :: rest) squares
  = if lineMatches squares l then get squares (firstCell l)
    else scanLines rest squares.
Proof. destruct l as [[a b] c]. reflexivity. Qed.

(** The loop returns the first cell of the first line that passes the
    test. *)
Lemma scanLines_first (squares : board) (pre : list line) (l : line)
    (post : list line) :
  (forall l', In l' pre -> lineMatches squares l' = false) ->
  lineMatches squares l = true ->
  scanLines (pre ++ l :: post) squares = get squares (firstCell l).
Proof.
  induction pre as [ | p pre IH]; intros Hpre Hl.
  - simpl app. rewrite scanLines_cons, Hl. reflexivity.
  - simpl app. rewrite scanLines_cons.
    rewrite (Hpre p (or_introl eq_refl)).
    apply IH; [ | exact Hl ].
    intros l' Hin. apply Hpre. right. exact Hin.
Qed.

Lemma scanLines_none (squares : board) (ls : list line) :
  (forall l, In l ls -> lineMatches squares l = false) ->
  scanLines ls squares = VNull.
Proof.
  induction ls as [ | p ls IH]; intros Hno.
  - reflexivity.
  - rewrite scanLines_cons, (Hno p (or_introl eq_refl)).
    apply IH. intros l Hin. apply Hno. right. exact Hin.
Qed.

(** Every run of the loop is one of the two above. *)
Lemma scanLines_cases (squares : board) (ls : list line) :
  (scanLines ls squares = VNull
   /\ forall l, In l ls -> lineMatches squares l = false)
  \/ (exists pre l post,
         ls = pre ++ l :: post
         /\ (forall l', In l' pre -> lineMatches squares l' = false)
         /\ lineMatches squares l = true
         /\ scanLines ls squares = get squares (firstCell l)).
Proof.
  induction ls as [ | p ls IH].
  - left. split; [ reflexivity | intros l [] ].
  - destruct (lineMatches squares p) eqn:Hp.
    + right. exists [], p, ls. repeat split; try assumption.
      * intros l' [].
      * rewrite scanLines_cons, Hp. reflexivity.
    + destruct IH as [[Hnull Hno] | (pre & l & post & Hls & Hpre & Hl & Hres)].
      * left. split.
        -- rewrite scanLines_cons, Hp. exact Hnull.
        -- intros l [Heq | Hin]; [ subst; exact Hp | apply Hno; exact Hin ].
      * right. exists (p :: pre), l, post. repeat split; try assumption.
        -- rewrite Hls. reflexivity.
        -- intros l' [Heq | Hin]; [ subst; exact Hp | apply Hpre; exact Hin ].
        -- rewrite scanLines_cons, Hp. exact Hres.
Qed.

Lemma scanLines_truthy_iff (squares : board) (ls : list line) :
  truthy (scanLines ls squares) = true
  <-> exists l, In l ls /\ lineMatches squares l = true.
Proof.
  destruct (scanLines_cases squares ls)
    as [[Hnull Hno] | (pre & l & post & Hls & Hpre & Hl & Hres)].
  - rewrite Hnull. split; [ discriminate | ].
    intros (l & Hin & Hl). rewrite (Hno l Hin) in Hl. discriminate.
  - rewrite Hres. split.
    + intros _. exists l. split; [ | exact Hl ].
      rewrite Hls. apply in_elt.
    + intros _. apply lineMatches_allThree. exact Hl.
Qed.

(** C3.  [calculateWinner] returns a mark [m] (a non-empty value) only if
    one of the 8 lines has its three cells equal to [m]; it returns a
    mark exactly when some line is filled with one mark and [null]
    exactly when none is; and when one or more lines are filled the
    result is the mark of the first of them in the order of the table,
    which is rows, then columns, then diagonals. *)
Theorem calculateWinner_first_full_line (squares : board) :
  (forall m : value,
      truthy m = true ->
      calculateWinner squares = m ->
      exists l, In l lines /\ allThree squares l m)
  /\ (truthy (calculateWinner squares) = true
      <-> exists l m, In l lines /\ truthy m = true /\ allThree squares l m)
  /\ (calculateWinner squares = VNull
      <-> forall l m, In l lines -> truthy m = true -> ~ allThree squares l m)
  /\ (forall (pre : list line) (l : line) (post : list line) (m : value),
        lines = pre ++ l :: post ->
        truthy m = true ->
        allThree squares l m ->
        (forall l' m', In l' pre -> truthy m' = true ->
                       ~ allThree squares l' m') ->
        calculateWinner squares = m)
  /\ lines = rows ++ columns ++ diagonals
  /\ length lines = 8.
Proof.
  assert (Hfirst : forall pre l post m,
             lines = pre ++ l :: post ->
             truthy m = true ->
             allThree squares l m ->
             (forall l' m', In l' pre -> truthy m' = true ->
                            ~ allThree squares l' m') ->
             calculateWinner squares = m).
  { intros pre l post m Hls Ht Hall Hpre.
    destruct (allThree_lineMatches squares l m Ht Hall) as [Hl Hm].
    unfold calculateWinner. rewrite Hls, <- Hm.
    apply scanLines_first; [ | exact Hl ].
    intros l' Hin. destruct (lineMatches squares l') eqn:Hl'; [ | reflexivity ].
    apply lineMatches_allThree in Hl'. destruct Hl' as [Ht' Hall'].
    exfalso. exact (Hpre l' _ Hin Ht' Hall'). }
  assert (Htruthy : truthy (calculateWinner squares) = true
                    <-> exists l m, In l lines /\ truthy m = true
                                    /\ allThree squares l m).
  { unfold calculateWinner. rewrite scanLines_truthy_iff. split.
    - intros (l & Hin & Hl). apply lineMatches_allThree in Hl.
      exists l, (get squares (firstCell l)). tauto.
    - intros (l & m & Hin & Ht & Hall). exists l. split; [ exact Hin | ].
      apply (allThree_lineMatches squares l m Ht Hall). }
  split; [ | split; [ exact Htruthy | split; [ | split; [ exact Hfirst | ] ] ] ].
  - intros m Ht Hres.
    destruct (scanLines_cases squares lines)
      as [[Hnull Hno] | (pre & l & post & Hls & Hpre & Hl & Hget)].
    + unfold calculateWinner in Hres. rewrite Hnull in Hres.
      subst m. discriminate.
    + exists l. split; [ rewrite Hls; apply in_elt | ].
      apply lineMatches_allThree in Hl.
      unfold calculateWinner in Hres. rewrite <- Hres, Hget. apply Hl.
  - split.
    + intros Hnull l m Hin Ht Hall.
      assert (Hex : truthy (calculateWinner squares) = true)
        by (apply Htruthy; exists l, m; auto).
      rewrite Hnull in Hex. discriminate.
    + intros Hno. unfold calculateWinner. apply scanLines_none.
      intros l Hin. destruct (lineMatches squares l) eqn:Hl; [ | reflexivity ].
      apply lineMatches_allThree in Hl. destruct Hl as [Ht Hall].
      exfalso. exact (Hno l _ Hin Ht Hall).
  - split; reflexivity.
Qed.

End Winner.

Lemma calculateWinner_first_full_line_witness :
  calculateWinner
    [VStr "O"; VStr "X"; VNull; VStr "O"; VStr "X"; VNull; VStr "O"; VStr "X"; VNull]
  = VStr "O".
Proof.
  destruct (calculateWinner_first_full_line
              [VStr "O"; VStr "X"; VNull; VStr "O"; VStr "X"; VNull;
               VStr "O"; VStr "X"; VNull]) as (_ & _ & _ & Hfirst & _).
  apply (Hfirst rows (0, 3, 6) [(1, 4, 7); (2, 5, 8); (0, 4, 8); (2, 4, 6)]).
  - reflexivity.
  - reflexivity.
  - repeat split.
  - intros l' m' Hin Ht Hall.
    destruct Hin as [Hl | [Hl | [Hl | []]]]; subst l';
      destruct Hall as (H0 & H1 & H2); subst m'; discriminate.
Defined.

(** ** Boards of a legal game *)

Section LegalBoards.

(** An accepted click: the cell was free, nobody had won, and the new
    board is the old one with a mark in that cell. *)
Lemma played_Some (xn : bool) (squares next : board) (i : nat) :
  played xn squares i = Some next ->
  truthy (get squares i) = false
  /\ truthy (calculateWinner squares) = false
  /\ next = set i (VStr (if xn then "X" else "O")) squares.
Proof.
  unfold played, handleClick.
  destruct (truthy (get squares i)); [ discriminate | ].
  destruct (truthy (calculateWinner squares)); [ discriminate | ].
  simpl. intros Hnext. repeat split.
  destruct xn; congruence.
Qed.

(** A line filled after a mark was put in cell [i] of a board without a
    filled line goes through [i]. *)
Lemma new_full_line_through_cell (squares : board) (i : nat) (v m : value)
    (l : line) :
  lineMatches squares l = false ->
  truthy m = true ->
  allThree (set i v squares) l m ->
  m = v.
Proof.
  intros Hno Ht Hall.
  destruct l as [[a b] c]. destruct Hall as (Ha & Hb & Hc).
  destruct (Nat.eq_dec a i) as [-> | Hai];
    [ rewrite get_set_same in Ha; congruence | ].
  destruct (Nat.eq_dec b i) as [-> | Hbi];
    [ rewrite get_set_same in Hb; congruence | ].
  destruct (Nat.eq_dec c i) as [-> | Hci];
    [ rewrite get_set_same in Hc; congruence | ].
  rewrite get_set_other in Ha, Hb, Hc by assumption.
  assert (Hyes : lineMatches squares (a, b, c) = true).
  { apply (allThree_lineMatches squares (a, b, c) m Ht). repeat split; assumption. }
  congruence.
Qed.

Lemma legalBoard_oneWinningMark (n : nat) (squares : board) :
  legalBoard n squares -> oneWinningMark squares.
Proof.
  intros Hlegal. destruct Hlegal as [ | n squares next i Hprev Hi Hplayed].
  - intros l1 l2 m1 m2 Hin1 _ Ht1 _ Hall1 _. exfalso.
    destruct (allThree_lineMatches _ l1 m1 Ht1 Hall1) as [Hl _].
    assert (Hwin : truthy (calculateWinner (fill 9 VNull)) = true).
    { unfold calculateWinner. apply scanLines_truthy_iff. exists l1. auto. }
    discriminate Hwin.
  - apply played_Some in Hplayed. destruct Hplayed as (_ & Hnone & ->).
    assert (Hno : forall l, In l lines -> lineMatches squares l = false).
    { intros l Hin. destruct (lineMatches squares l) eqn:Hl; [ | reflexivity ].
      assert (Hwin : truthy (calculateWinner squares) = true)
        by (apply scanLines_truthy_iff; exists l; auto).
      congruence. }
    intros l1 l2 m1 m2 Hin1 Hin2 Ht1 Ht2 Hall1 Hall2.
    rewrite (new_full_line_through_cell _ _ _ _ _ (Hno l1 Hin1) Ht1 Hall1).
    rewrite (new_full_line_through_cell _ _ _ _ _ (Hno l2 Hin2) Ht2 Hall2).
    reflexivity.
Qed.

(** On a board whose filled lines agree, the scan gives the same result
    over any table with the same lines. *)
Lemma scanLines_same_lines (squares : board) (ls1 ls2 : list line) :
  (forall l, In l ls1 -> In l lines) ->
  (forall l, In l ls1 <-> In l ls2) ->
  oneWinningMark squares ->
  scanLines ls1 squares = scanLines ls2 squares.
Proof.
  intros Hsub Hsame Hone.
  destruct (scanLines_cases squares ls1)
    as [[Hnull1 Hno1] | (pre1 & l1 & post1 & Hls1 & _ & Hl1 & Hres1)].
  - rewrite Hnull1. symmetry. apply scanLines_none.
    intros l Hin. apply Hno1. apply Hsame. exact Hin.
  - destruct (scanLines_cases squares ls2)
      as [[Hnull2 Hno2] | (pre2 & l2 & post2 & Hls2 & _ & Hl2 & Hres2)].
    + assert (Hin : In l1 ls2)
        by (apply Hsame; rewrite Hls1; apply in_elt).
      rewrite (Hno2 l1 Hin) in Hl1. discriminate.
    + rewrite Hres1, Hres2.
      apply lineMatches_allThree in Hl1. apply lineMatches_allThree in Hl2.
      assert (Hin1 : In l1 ls1) by (rewrite Hls1; apply in_elt).
      assert (Hin2 : In l2 ls2) by (rewrite Hls2; apply in_elt).
      apply (Hone l1 l2); try tauto.
      * apply Hsub. exact Hin1.
      * apply Hsub. apply Hsame. exact Hin2.
Qed.

Lemma legalBoard_scan_any_order (n : nat) (squares : board) (ls : list line) :
  legalBoard n squares ->
  Permutation ls lines ->
  scanLines ls squares = scanLines lines squares.
Proof.
  intros Hlegal Hperm. symmetry.
  apply scanLines_same_lines;
    [ auto | | exact (legalBoard_oneWinningMark n squares Hlegal) ].
  intros l. split; intros Hin.
  - apply (Permutation_in l (Permutation_sym Hperm)). exact Hin.
  - apply (Permutation_in l Hperm). exact Hin.
Qed.

(** C4.  On a board reached by alternating legal moves, where no move
    follows a filled line, the result of the scan does not depend on the
    order of the table of lines: every permutation of [lines] gives what
    [calculateWinner] gives, because all filled lines of such a board
    carry the same mark. *)
Theorem calculateWinner_order_independent (n : nat) (squares : board)
    (ls : list line) :
  legalBoard n squares ->
  Permutation ls lines ->
  scanLines ls squares = calculateWinner squares
  /\ oneWinningMark squares.
Proof.
  intros Hlegal Hperm. split.
  - exact (legalBoard_scan_any_order n squares ls Hlegal Hperm).
  - exact (legalBoard_oneWinningMark n squares Hlegal).
Qed.

End LegalBoards.

Lemma legal_click (n : nat) (squares next : board) (i : nat) :
  legalBoard n squares ->
  (i <=? 8) = true ->
  played (xIsNext (Z.of_nat n)) squares i = Some next ->
  legalBoard (S n) next.
Proof.
  intros Hlegal Hi Hplayed.
  apply (legal_move n squares next i Hlegal); [ | exact Hplayed ].
  apply Nat.leb_le. exact Hi.
Defined.

(** A full board whose last move fills the top row and the left column at
    once, reached by X1 O4 X2 O5 X3 O7 X6 O8 X0. *)
Lemma legalBoard_double_line :
  legalBoard 9
    [VStr "X"; VStr "X"; VStr "X"; VStr "X"; VStr "O"; VStr "O";
     VStr "X"; VStr "O"; VStr "O"].
Proof.
  pose proof (legal_click 0 _ _ 1 legal_start eq_refl eq_refl) as H1.
  pose proof (legal_click 1 _ _ 4 H1 eq_refl eq_refl) as H2.
  pose proof (legal_click 2 _ _ 2 H2 eq_refl eq_refl) as H3.
  pose proof (legal_click 3 _ _ 5 H3 eq_refl eq_refl) as H4.
  pose proof (legal_click 4 _ _ 3 H4 eq_refl eq_refl) as H5.
  pose proof (legal_click 5 _ _ 7 H5 eq_refl eq_refl) as H6.
  pose proof (legal_click 6 _ _ 6 H6 eq_refl eq_refl) as H7.
  pose proof (legal_click 7 _ _ 8 H7 eq_refl eq_refl) as H8.
  exact (legal_click 8 _ _ 0 H8 eq_refl eq_refl).
Defined.

Lemma calculateWinner_order_independent_witness :
  scanLines (rev lines)
    [VStr "X"; VStr "X"; VStr "X"; VStr "X"; VStr "O"; VStr "O";
     VStr "X"; VStr "O"; VStr "O"]
  = VStr "X".
Proof.
  destruct (calculateWinner_order_independent
              9 _ (rev lines) legalBoard_double_line) as [Hscan _].
  - apply Permutation_sym, Permutation_rev.
  - rewrite Hscan. reflexivity.
Defined.

(** ** States of a running game *)

Section ReachableStates.

Lemma nth_error_keep_append {A : Type} (h : list A) (c : nat) (x : A) (i : nat) :
  c < length h ->
  nth_error (firstn (S c) h ++ [x]) i
  = if i <=? c then nth_error h i
    else if i =? S c then Some x else None.
Proof.
  intros Hc.
  assert (Hlen : length (firstn (S c) h) = S c) by (rewrite length_firstn; lia).
  destruct (Nat.leb_spec i c) as [Hi | Hi].
  - rewrite nth_error_app1 by lia.
    rewrite nth_error_firstn.
    destruct (Nat.ltb_spec i (S c)); [ reflexivity | lia ].
  - rewrite nth_error_app2 by lia. rewrite Hlen.
    destruct (Nat.eqb_spec i (S c)) as [-> | Hne].
    + rewrite Nat.sub_diag. reflexivity.
    + destruct (i - S c) as [ | d] eqn:Hd; [ lia | ].
      simpl. destruct d; reflexivity.
Qed.

Lemma free_cell_is_null (b : board) (i : nat) :
  nineCells b -> i <= 8 -> truthy (get b i) = false -> get b i = VNull.
Proof.
  intros [_ Hcells] Hi Hfree.
  destruct (Hcells i ltac:(lia)) as [Hnull | [Hx | Ho]];
    [ exact Hnull | | ]; rewrite ?Hx, ?Ho in Hfree; discriminate.
Qed.

Lemma set_mark_fills_one_cell (b : board) (i : nat) (xn : bool) :
  nineCells b -> i <= 8 -> truthy (get b i) = false ->
  nineCells (set i (VStr (if xn then "X" else "O")) b)
  /\ oneCellFilled b (set i (VStr (if xn then "X" else "O")) b).
Proof.
  intros Hnine Hi Hfree.
  assert (Hnull := free_cell_is_null b i Hnine Hi Hfree).
  destruct Hnine as [Hlen Hcells].
  assert (Hmark : isMark (VStr (if xn then "X" else "O")))
    by (destruct xn; [ left | right ]; reflexivity).
  assert (Hlen' : length (set i (VStr (if xn then "X" else "O")) b) = length b)
    by (apply length_set_in_range; lia).
  split; [ split | split ].
  - lia.
  - intros j Hj. destruct (Nat.eq_dec j i) as [-> | Hne].
    + rewrite get_set_same. right. exact Hmark.
    + rewrite get_set_other by exact Hne. apply Hcells. exact Hj.
  - exact Hlen'.
  - exists i. repeat split.
    + lia.
    + exact Hnull.
    + rewrite get_set_same. exact Hmark.
    + intros j Hne. apply get_set_other. exact Hne.
Qed.

(** What a click does to a well-formed game: nothing, or it keeps the
    entries up to the cursor and appends the board that [handleClick]
    hands over, a one-cell extension of the board at the cursor. *)
Lemma click_well_formed (g g' : GameState) (i : nat) :
  wellFormed g -> i <= 8 -> dispatch (Click i) g = Returns g' ->
  g' = g
  \/ exists squares next,
       currentSquares g = Some squares
       /\ played (xIsNext (currentMove g)) squares i = Some next
       /\ nineCells next
       /\ oneCellFilled squares next
       /\ history g' = firstn (S (Z.to_nat (currentMove g))) (history g) ++ [next]
       /\ currentMove g' = (currentMove g + 1)%Z.
Proof.
  intros Hwf Hi Hstep. unfold dispatch in Hstep.
  destruct (currentSquares g) as [squares | ] eqn:Hcur; [ | discriminate ].
  injection Hstep as <-.
  destruct (truthy (get squares i)) eqn:Hfree;
    [ left; apply handleClick_rejects; auto | ].
  destruct (truthy (calculateWinner squares)) eqn:Hwon;
    [ left; apply handleClick_rejects; auto | ].
  right.
  rewrite handleClick_accepts by assumption.
  destruct (index_in_range _ _ _ Hcur) as [Hc Hnth].
  destruct (set_mark_fills_one_cell squares i (xIsNext (currentMove g)))
    as [Hnine Hone]; [ exact (wf_boards g Hwf _ _ Hnth) | exact Hi | exact Hfree | ].
  exists squares, (set i (VStr (if xIsNext (currentMove g) then "X" else "O")) squares).
  split; [ reflexivity | ].
  split; [ unfold played; apply handleClick_accepts; assumption | ].
  split; [ exact Hnine | ].
  split; [ exact Hone | ].
  apply handlePlay_in_range. exact Hc.
Qed.

Lemma dispatch_well_formed (g g' : GameState) (e : event) :
  wellFormed g -> allowed e g -> dispatch e g = Returns g' -> wellFormed g'.
Proof.
  intros Hwf Hallowed Hstep. destruct e as [i | k].
  - destruct (click_well_formed g g' i Hwf Hallowed Hstep)
      as [-> | (squares & next & Hcur & _ & Hnine & Hone & Hhist & Hmove)];
      [ exact Hwf | ].
    destruct (index_in_range _ _ _ Hcur) as [Hc Hnth].
    assert (Hcn : Z.to_nat (currentMove g) < length (history g)) by lia.
    constructor.
    + rewrite Hhist, Hmove, length_app, length_firstn. cbn [length]. lia.
    + intros j b. rewrite Hhist, nth_error_keep_append by exact Hcn.
      destruct (j <=? Z.to_nat (currentMove g)); [ apply (wf_boards g Hwf) | ].
      destruct (j =? S (Z.to_nat (currentMove g))); [ | discriminate ].
      intros [= <-]. exact Hnine.
    + intros j b b'. rewrite Hhist, !nth_error_keep_append by exact Hcn.
      destruct (Nat.leb_spec (S j) (Z.to_nat (currentMove g))) as [Hj | Hj].
      * destruct (Nat.leb_spec j (Z.to_nat (currentMove g))); [ | lia ].
        apply (wf_steps g Hwf).
      * destruct (Nat.eqb_spec (S j) (S (Z.to_nat (currentMove g)))) as [Heq | Hne];
          [ | discriminate 2 ].
        injection Heq as ->.
        rewrite Nat.leb_refl. intros Hb [= <-].
        rewrite Hnth in Hb. injection Hb as <-. exact Hone.
  - simpl in Hstep. injection Hstep as <-.
    constructor; cbn [jumpTo history currentMove];
      [ exact Hallowed | apply (wf_boards g Hwf) | apply (wf_steps g Hwf) ].
Qed.

Lemma initialState_well_formed : wellFormed initialState.
Proof.
  constructor.
  - simpl. lia.
  - intros [ | i] b Hb; [ | destruct i; discriminate Hb ].
    injection Hb as <-. split; [ reflexivity | ].
    intros j Hj. left.
    do 9 (destruct j as [ | j]; [ reflexivity | ]). lia.
  - intros [ | i] b b' _ Hb'; [ discriminate Hb' | destruct i; discriminate Hb' ].
Qed.

Lemma reachable_well_formed (g : GameState) : reachable g -> wellFormed g.
Proof.
  induction 1 as [ | g g' e _ IH Hallowed Hstep].
  - exact initialState_well_formed.
  - exact (dispatch_well_formed g g' e IH Hallowed Hstep).
Qed.

(** The boards a running game stores are the boards of legal play: entry
    [k] of the history is reached by [k] accepted clicks. *)
Lemma dispatch_boards_legal (g g' : GameState) (e : event) :
  wellFormed g ->
  (forall k b, nth_error (history g) k = Some b -> legalBoard k b) ->
  allowed e g -> dispatch e g = Returns g' ->
  forall k b, nth_error (history g') k = Some b -> legalBoard k b.
Proof.
  intros Hwf Hlegal Hallowed Hstep. destruct e as [i | j].
  - destruct (click_well_formed g g' i Hwf Hallowed Hstep)
      as [-> | (squares & next & Hcur & Hplayed & _ & _ & Hhist & _)];
      [ exact Hlegal | ].
    destruct (index_in_range _ _ _ Hcur) as [Hc Hnth].
    intros k b. rewrite Hhist, nth_error_keep_append by lia.
    destruct (k <=? Z.to_nat (currentMove g)); [ apply Hlegal | ].
    destruct (Nat.eqb_spec k (S (Z.to_nat (currentMove g)))) as [-> | _];
      [ | discriminate ].
    intros [= <-].
    apply (legal_move _ squares next i (Hlegal _ _ Hnth) Hallowed).
    rewrite Z2Nat.id by lia. exact Hplayed.
  - simpl in Hstep. injection Hstep as <-. exact Hlegal.
Qed.

Lemma reachable_boards_legal (g : GameState) :
  reachable g ->
  forall k b, nth_error (history g) k = Some b -> legalBoard k b.
Proof.
  induction 1 as [ | g g' e Hreach IH Hallowed Hstep].
  - intros [ | k] b Hb; [ | destruct k; discriminate Hb ].
    injection Hb as <-. apply legal_start.
  - exact (dispatch_boards_legal g g' e (reachable_well_formed g Hreach)
             IH Hallowed Hstep).
Qed.

(** So the board on display in a running game has the same winner under
    every order of the table. *)
Lemma reachable_scan_any_order (g : GameState) (squares : board)
    (ls : list line) :
  reachable g ->
  currentSquares g = Some squares ->
  Permutation ls lines ->
  scanLines ls squares = calculateWinner squares.
Proof.
  intros Hreach Hcur Hperm.
  destruct (index_in_range _ _ _ Hcur) as [_ Hnth].
  exact (legalBoard_scan_any_order _ squares ls
           (reachable_boards_legal g Hreach _ _ Hnth) Hperm).
Qed.

(** C8.  In every state reached from the initial one by clicks on cells
    0..8 and in-range jumps, each history entry and the next differ in
    exactly one cell, which is empty in the earlier board and a mark in
    the later one; a click leaves the stored entries up to the cursor as
    they are and appends a one-cell extension of the board at the
    cursor, or changes nothing. *)
Theorem history_entries_differ_in_one_cell (g : GameState) :
  reachable g ->
  (forall (i : nat) (b b' : board),
      nth_error (history g) i = Some b ->
      nth_error (history g) (i + 1) = Some b' ->
      oneCellFilled b b')
  /\ (forall (j : nat) (g' : GameState),
        j <= 8 ->
        dispatch (Click j) g = Returns g' ->
        g' = g
        \/ exists squares next,
             currentSquares g = Some squares
             /\ oneCellFilled squares next
             /\ history g'
                = firstn (S (Z.to_nat (currentMove g))) (history g) ++ [next]).
Proof.
  intros Hreach. assert (Hwf := reachable_well_formed g Hreach). split.
  - intros i b b' Hb Hb'. rewrite Nat.add_1_r in Hb'.
    exact (wf_steps g Hwf i b b' Hb Hb').
  - intros j g' Hj Hstep.
    destruct (click_well_formed g g' j Hwf Hj Hstep)
      as [-> | (squares & next & Hcur & _ & _ & Hone & Hhist & _)];
      [ left; reflexivity | right ].
    exists squares, next. auto.
Qed.

End ReachableStates.

Lemma allowedb_allowed (e : event) (g : GameState) :
  allowedb e g = true -> allowed e g.
Proof.
  destruct e as [i | k]; simpl.
  - apply Nat.leb_le.
  - intros Hk. apply andb_true_iff in Hk. lia.
Qed.

Lemma reachable_runAllowed (es : list event) :
  forall g g', reachable g -> runAllowed es g = Some g' -> reachable g'.
Proof.
  induction es as [ | e es IH]; intros g g' Hreach Hrun.
  - injection Hrun as <-. exact Hreach.
  - simpl in Hrun.
    destruct (allowedb e g) eqn:Hallowed; [ | discriminate ].
    destruct (dispatch e g) as [g1 | msg] eqn:Hstep; [ | discriminate ].
    apply (IH g1 g'); [ | exact Hrun ].
    exact (reach_step g g1 e Hreach (allowedb_allowed e g Hallowed) Hstep).
Qed.

(** X plays 0, O plays 4, back to move 1, O plays 8 instead: the entry for
    O's first answer is overwritten. *)
Lemma history_entries_differ_in_one_cell_witness :
  let b1 := [VStr "X"; VNull; VNull; VNull; VNull; VNull; VNull; VNull; VNull] in
  let b2 := [VStr "X"; VNull; VNull; VNull; VNull; VNull; VNull; VNull; VStr "O"] in
  runAllowed [Click 0; Click 4; Jump 1; Click 8] initialState
  = Some (mkGame [fill 9 VNull; b1; b2] 2)
  /\ oneCellFilled b1 b2.
Proof.
  intros b1 b2. split; [ reflexivity | ].
  assert (Hreach : reachable (mkGame [fill 9 VNull; b1; b2] 2)).
  { apply (reachable_runAllowed [Click 0; Click 4; Jump 1; Click 8] initialState);
      [ apply reach_init | reflexivity ]. }
  destruct (history_entries_differ_in_one_cell _ Hreach) as [Hsteps _].
  apply (Hsteps 1); reflexivity.
Defined.

(** ** The list of moves *)

Section Moves.

Lemma mapIndexed_length {A B : Type} (f : A -> nat -> B) (l : list A) :
  forall from, length (mapIndexed f from l) = length l.
Proof.
  induction l as [ | x l IH]; intros from; simpl; [ | rewrite IH ]; reflexivity.
Qed.

Lemma mapIndexed_nth_error {A B : Type} (f : A -> nat -> B) (l : list A) :
  forall from k x,
    nth_error l k = Some x ->
    nth_error (mapIndexed f from l) k = Some (f x (from + k)).
Proof.
  induction l as [ | y l IH]; intros from k x Hk.
  - destruct k; discriminate Hk.
  - destruct k as [ | k]; simpl in *.
    + injection Hk as ->. rewrite Nat.add_0_r. reflexivity.
    + rewrite (IH (S from) k x Hk). f_equal. f_equal. lia.
Qed.

(** C9, as the code has it.  The list of moves has one entry per history
    entry, in history order, entry [k] keyed [k].  The description is
    "Go to Game Start" for index 0 and "Go to Move #N" for N > 0; the
    entry at the cursor shows "You are at move # N" instead, every other
    entry is a button with its description that jumps to its own
    index. *)
Theorem moves_one_entry_per_history_entry (g : GameState) (k : nat) :
  k < length (history g) ->
  length (moves g) = length (history g)
  /\ description 0 = "Go to Game Start"
  /\ (0 < k -> description k = ("Go to Move #" ++ dec k)%string)
  /\ (currentMove g <> Z.of_nat k ->
      nth_error (moves g) k
      = Some (GoToButton k (Z.of_nat k) (description k)))
  /\ (currentMove g = Z.of_nat k ->
      nth_error (moves g) k
      = Some (YouAreAt k ("You are at move # " ++ dec k)%string)).
Proof.
  intros Hk.
  assert (Hentry : nth_error (moves g) k = Some (moveEntry (currentMove g) k)).
  { destruct (nth_error (history g) k) as [b | ] eqn:Hb.
    - unfold moves. rewrite (mapIndexed_nth_error _ _ 0 k b Hb). reflexivity.
    - apply nth_error_None in Hb. lia. }
  split; [ apply mapIndexed_length | ].
  split; [ reflexivity | ].
  split; [ | split ].
  - intros Hpos. unfold description.
    destruct (Nat.ltb_spec 0 k); [ reflexivity | lia ].
  - intros Hne. rewrite Hentry. unfold moveEntry.
    destruct (Z.eqb_spec (currentMove g) (Z.of_nat k)); [ contradiction | reflexivity ].
  - intros Heq. rewrite Hentry. unfold moveEntry.
    destruct (Z.eqb_spec (currentMove g) (Z.of_nat k)); [ reflexivity | contradiction ].
Qed.

End Moves.

Lemma moves_one_entry_per_history_entry_witness :
  let g := mkGame [fill 9 VNull; fill 9 VNull; fill 9 VNull] 1 in
  nth_error (moves g) 2 = Some (GoToButton 2 2 "Go to Move #2")
  /\ length (moves g) = 3.
Proof.
  intros g.
  destruct (moves_one_entry_per_history_entry g 2) as (Hlen & _ & Hdesc & Hbutton & _).
  - simpl. lia.
  - split; [ | exact Hlen ].
    rewrite Hbutton by (simpl; lia).
    rewrite Hdesc by lia. reflexivity.
Defined.

(** C9 fails as written: with three entries and the cursor on the second,
    the labels are not the ones the specification quotes: the capitals
    differ and the current entry carries no "Go to" label. *)
Lemma moves_labels_counterexample :
  let g := mkGame [fill 9 VNull; fill 9 VNull; fill 9 VNull] 1 in
  map label (moves g)
  = ["Go to Game Start"; "You are at move # 1"; "Go to Move #2"]
  /\ map label (moves g)
     <> ["Go to game start"; "Go to move #1"; "Go to move #2"]
  /\ nth_error (map label (moves g)) 0 <> Some "Go to game start"
  /\ description 2 <> "Go to move #2".
Proof.
  intros g. repeat split; discriminate.
Qed.

(** ** The task reducer *)

Section TaskReducer.

Import Tasks.

Lemma isCase_false (v : value) (label : string) :
  v <> VStr label -> isCase v label = false.
Proof.
  intros Hne. unfold isCase, strict_eq.
  destruct (value_eq_dec v (VStr label)); [ contradiction | reflexivity ].
Qed.

Lemma isCase_true (v : value) (label : string) :
  isCase v label = true -> v = VStr label.
Proof.
  unfold isCase, strict_eq.
  destruct (value_eq_dec v (VStr label)); [ auto | discriminate ].
Qed.

(** C10.  For an action whose type is none of "add", "remove", "edit",
    "default", [taskReducers] falls out of the [switch]: it returns
    [undefined], no task list and no error.  The 'Unknown action' error
    is raised for the type "default" and for no other. *)
Theorem taskReducers_unknown_type_returns_undefined
    (tasks : list task) (a : action) :
  type a <> VStr "add" ->
  type a <> VStr "remove" ->
  type a <> VStr "edit" ->
  type a <> VStr "default" ->
  taskReducers tasks a = Returns None
  /\ (forall a' : action,
        type a' = VStr "default" ->
        taskReducers tasks a' = Throws "Unknown action: default")
  /\ (forall (a' : action) (shown : string),
        taskReducers tasks a' = Throws ("Unknown action: " ++ shown)%string ->
        type a' = VStr "default").
Proof.
  intros Hadd Hremove Hedit Hdefault. split; [ | split ].
  - unfold taskReducers.
    rewrite !isCase_false by assumption. reflexivity.
  - intros a' Htype. unfold taskReducers. rewrite Htype. reflexivity.
  - intros a' shown. unfold taskReducers.
    destruct (isCase (type a') "add"); [ discriminate | ].
    destruct (isCase (type a') "remove"); [ discriminate | ].
    destruct (isCase (type a') "edit").
    + destruct (actionTask a'); [ discriminate | ].
      destruct tasks; discriminate.
    + destruct (isCase (type a') "default") eqn:Hcase; [ | discriminate ].
      intros _. apply isCase_true. exact Hcase.
Qed.

End TaskReducer.

Lemma taskReducers_unknown_type_returns_undefined_witness :
  Tasks.taskReducers
    [Tasks.mkTask (VNum 0) (VStr "Visit Kafka Museum") (VBool true)]
    (Tasks.mkAction (VStr "added") (VNum 3) (VStr "Lennon Wall pic") None)
  = Returns None.
Proof.
  apply (taskReducers_unknown_type_returns_undefined
           [Tasks.mkTask (VNum 0) (VStr "Visit Kafka Museum") (VBool true)]
           (Tasks.mkAction (VStr "added") (VNum 3) (VStr "Lennon Wall pic") None));
    discriminate.
Defined.

(** ** More on running games *)

Section RunningGames.

Lemma xIsNext_of_nat (n : nat) : xIsNext (Z.of_nat n) = Nat.even n.
Proof.
  rewrite xIsNext_even by lia.
  induction n as [ | n IH].
  - reflexivity.
  - rewrite Nat2Z.inj_succ, Z.even_succ, Nat.even_succ.
    rewrite <- Z.negb_even, <- Nat.negb_even, IH. reflexivity.
Qed.

Lemma legalBoard_nineCells (n : nat) (b : board) :
  legalBoard n b -> nineCells b.
Proof.
  induction 1 as [ | n squares next i _ IH Hi Hplayed].
  - split; [ reflexivity | ].
    intros j Hj. left. do 9 (destruct j as [ | j]; [ reflexivity | ]). lia.
  - apply played_Some in Hplayed. destruct Hplayed as (Hfree & _ & ->).
    apply set_mark_fills_one_cell; assumption.
Qed.

(** Overwriting cell [i] moves one unit of count from the old content to
    the new one. *)
Lemma count_occ_overwrite (b : list value) :
  forall (i : nat) (v x : value),
    i < length b ->
    count_occ value_eq_dec (firstn i b ++ v :: skipn (S i) b) x
    + (if value_eq_dec (nth i b VUndefined) x then 1 else 0)
    = count_occ value_eq_dec b x + (if value_eq_dec v x then 1 else 0).
Proof.
  induction b as [ | c b IH]; intros i v x Hi.
  - simpl in Hi. lia.
  - destruct i as [ | i].
    + simpl. destruct (value_eq_dec v x), (value_eq_dec c x); lia.
    + simpl in Hi. specialize (IH i v x ltac:(lia)).
      change (skipn (S (S i)) (c :: b)) with (skipn (S i) b).
      cbn [firstn app count_occ nth].
      destruct (value_eq_dec c x); lia.
Qed.

Lemma countMark_set (b : board) (i : nat) (v x : value) :
  i < length b ->
  countMark x (set i v b) + (if value_eq_dec (get b i) x then 1 else 0)
  = countMark x b + (if value_eq_dec v x then 1 else 0).
Proof.
  intros Hi. unfold countMark, set, get.
  destruct (Nat.ltb_spec i (length b)); [ | lia ].
  apply count_occ_overwrite. exact Hi.
Qed.

(** After [n] accepted clicks the board has [n] marks and [9 - n] empty
    cells; X has as many marks as O, and one more after an odd number of
    moves. *)
Lemma legalBoard_counts (n : nat) (b : board) :
  legalBoard n b ->
  countMark VNull b + n = 9
  /\ countMark (VStr "X") b + countMark (VStr "O") b = n
  /\ countMark (VStr "X") b
     = countMark (VStr "O") b + (if Nat.even n then 0 else 1).
Proof.
  induction 1 as [ | n squares next i Hlegal IH Hi Hplayed].
  - repeat split.
  - assert (Hnine := legalBoard_nineCells n squares Hlegal).
    apply played_Some in Hplayed. destruct Hplayed as (Hfree & _ & ->).
    assert (Hnull := free_cell_is_null squares i Hnine Hi Hfree).
    destruct Hnine as [Hlen _].
    assert (Hin : i < length squares) by lia.
    rewrite xIsNext_of_nat.
    pose proof (countMark_set squares i
                  (VStr (if Nat.even n then "X" else "O")) VNull Hin) as H0.
    pose proof (countMark_set squares i
                  (VStr (if Nat.even n then "X" else "O")) (VStr "X") Hin) as H1.
    pose proof (countMark_set squares i
                  (VStr (if Nat.even n then "X" else "O")) (VStr "O") Hin) as H2.
    rewrite Hnull in H0, H1, H2.
    rewrite Nat.even_succ, <- Nat.negb_even.
    destruct (Nat.even n); simpl in H0, H1, H2 |- *;
      destruct IH as (I0 & I1 & I2); lia.
Qed.

(** A line filled with [m] accounts for three cells holding [m]. *)
Lemma filled_line_three_marks (b : board) (l : line) (m : value) :
  length b = 9 -> In l lines -> allThree b l m -> 3 <= countMark m b.
Proof.
  intros Hlen Hin Hall.
  do 9 (destruct b as [ | ? b]; [ discriminate Hlen | ]).
  destruct b; [ | discriminate Hlen ].
  unfold countMark.
  repeat (destruct Hin as [<- | Hin]; [ | ]);
    try contradiction;
    destruct Hall as (Ha & Hb & Hc); unfold get in Ha, Hb, Hc;
    simpl in Ha, Hb, Hc; subst;
    simpl; repeat (destruct (value_eq_dec _ _)); try congruence; lia.
Qed.

(** The board is won by the move just made: a winner on the board after
    [n] accepted clicks is the player of move [n - 1]. *)
Lemma legalBoard_winner (n : nat) (b : board) :
  legalBoard n b ->
  truthy (calculateWinner b) = true ->
  exists n', n = S n' /\ calculateWinner b = moverMark n'.
Proof.
  intros Hlegal Hwon.
  destruct Hlegal as [ | n squares next i Hprev Hi Hplayed];
    [ discriminate Hwon | ].
  exists n. split; [ reflexivity | ].
  apply played_Some in Hplayed. destruct Hplayed as (_ & Hnone & ->).
  destruct (scanLines_cases
              (set i (VStr (if xIsNext (Z.of_nat n) then "X" else "O")) squares)
              lines)
    as [[Hnull _] | (pre & l & post & Hls & _ & Hl & Hres)].
  - unfold calculateWinner in Hwon. rewrite Hnull in Hwon. discriminate.
  - unfold calculateWinner. rewrite Hres.
    apply lineMatches_allThree in Hl. destruct Hl as [Ht Hall].
    apply (new_full_line_through_cell squares i _ _ l); [ | exact Ht | exact Hall ].
    destruct (lineMatches squares l) eqn:Hold; [ | reflexivity ].
    assert (Hwin : truthy (calculateWinner squares) = true).
    { apply scanLines_truthy_iff. exists l. split; [ | exact Hold ].
      rewrite Hls. apply in_elt. }
    congruence.
Qed.

Lemma winner_line (b : board) :
  truthy (calculateWinner b) = true ->
  exists l, In l lines /\ allThree b l (calculateWinner b).
Proof.
  intros Hwon.
  destruct (scanLines_cases b lines)
    as [[Hnull _] | (pre & l & post & Hls & _ & Hl & Hres)].
  - unfold calculateWinner in Hwon. rewrite Hnull in Hwon. discriminate.
  - exists l. split; [ rewrite Hls; apply in_elt | ].
    unfold calculateWinner. rewrite Hres.
    apply lineMatches_allThree. exact Hl.
Qed.

(** No board is won before the fifth move; X wins after an odd number of
    moves, O after an even number, at least six. *)
Lemma legalBoard_winner_move (n : nat) (b : board) :
  legalBoard n b ->
  truthy (calculateWinner b) = true ->
  (calculateWinner b = VStr "X" /\ Nat.odd n = true /\ 5 <= n)
  \/ (calculateWinner b = VStr "O" /\ Nat.even n = true /\ 6 <= n).
Proof.
  intros Hlegal Hwon.
  destruct (legalBoard_winner n b Hlegal Hwon) as (n' & -> & Hmark).
  destruct (winner_line b Hwon) as (l & Hin & Hall).
  destruct (legalBoard_nineCells _ b Hlegal) as [Hlen _].
  assert (Hthree := filled_line_three_marks b l _ Hlen Hin Hall).
  destruct (legalBoard_counts _ b Hlegal) as (_ & Hsum & Hdiff).
  rewrite Hmark in Hthree |- *. unfold moverMark in *.
  rewrite xIsNext_of_nat in *.
  rewrite Nat.odd_succ, Nat.even_succ, <- Nat.negb_even in *.
  destruct (Nat.even n') eqn:Heven; simpl in *.
  - left. repeat split. lia.
  - right. repeat split. lia.
Qed.

Lemma dispatch_playedSteps (g g' : GameState) (e : event) :
  wellFormed g -> playedSteps g ->
  allowed e g -> dispatch e g = Returns g' ->
  playedSteps g'.
Proof.
  intros Hwf Hsteps Hallowed Hstep. destruct e as [i | j].
  - destruct (click_well_formed g g' i Hwf Hallowed Hstep)
      as [-> | (squares & next & Hcur & Hplayed & _ & _ & Hhist & _)];
      [ exact Hsteps | ].
    destruct (index_in_range _ _ _ Hcur) as [Hc Hnth].
    intros k b b'. rewrite Hhist, !nth_error_keep_append by lia.
    destruct (Nat.leb_spec (S k) (Z.to_nat (currentMove g))) as [Hk | Hk].
    + destruct (Nat.leb_spec k (Z.to_nat (currentMove g))); [ | lia ].
      apply Hsteps.
    + destruct (Nat.eqb_spec (S k) (S (Z.to_nat (currentMove g)))) as [Heq | _];
        [ | discriminate 2 ].
      injection Heq as ->. rewrite Nat.leb_refl.
      intros Hb [= <-]. rewrite Hnth in Hb. injection Hb as <-.
      exists i. split; [ exact Hallowed | ].
      rewrite Z2Nat.id by lia. exact Hplayed.
  - simpl in Hstep. injection Hstep as <-. exact Hsteps.
Qed.

Lemma reachable_playedSteps (g : GameState) : reachable g -> playedSteps g.
Proof.
  induction 1 as [ | g g' e Hreach IH Hallowed Hstep].
  - intros k b b' _ Hb'. destruct k as [ | k]; [ | destruct k ]; discriminate Hb'.
  - exact (dispatch_playedSteps g g' e (reachable_well_formed g Hreach)
             IH Hallowed Hstep).
Qed.

End RunningGames.

(** ** What a running game shows and never does *)

Section GameFacts.

Lemma index_Some_in_range {A : Type} (arr : list A) (k : Z) :
  (0 <= k < Z.of_nat (length arr))%Z ->
  index arr k = nth_error arr (Z.to_nat k)
  /\ exists x, nth_error arr (Z.to_nat k) = Some x.
Proof.
  intros Hk. unfold index.
  destruct (Z.ltb_spec k 0) as [Hneg | _]; [ lia | ].
  split; [ reflexivity | ].
  destruct (nth_error arr (Z.to_nat k)) as [x | ] eqn:Hx; [ exists x; reflexivity | ].
  apply nth_error_None in Hx. lia.
Qed.

Lemma index_last {A : Type} (kept : list A) (x : A) :
  index (kept ++ [x]) (Z.of_nat (length (kept ++ [x])) - 1) = Some x.
Proof.
  unfold index. rewrite length_app. cbn [length].
  destruct (Z.ltb_spec (Z.of_nat (length kept + 1) - 1) 0) as [Hneg | _]; [ lia | ].
  replace (Z.to_nat (Z.of_nat (length kept + 1) - 1)) with (length kept) by lia.
  rewrite nth_error_app2 by lia. rewrite Nat.sub_diag. reflexivity.
Qed.

Lemma currentSquares_handlePlay (nextSquares : board) (g : GameState) :
  currentSquares (handlePlay nextSquares g) = Some nextSquares.
Proof.
  unfold currentSquares, handlePlay. cbn [history currentMove].
  apply index_last.
Qed.

Lemma reachable_current_board (g : GameState) :
  reachable g ->
  exists b, currentSquares g = Some b
            /\ nth_error (history g) (Z.to_nat (currentMove g)) = Some b
            /\ nineCells b.
Proof.
  intros Hreach. assert (Hwf := reachable_well_formed g Hreach).
  destruct (index_Some_in_range (history g) (currentMove g) (wf_cursor g Hwf))
    as [Hidx [b Hb]].
  exists b. unfold currentSquares. rewrite Hidx.
  repeat split; try exact Hb.
  - exact (proj1 (wf_boards g Hwf _ _ Hb)).
  - exact (proj2 (wf_boards g Hwf _ _ Hb)).
Qed.

(** X1.  In every state a game can reach the cursor lies within the
    history and selects a board of nine cells, each empty, X or O; so no
    click on a square and no jump to a listed move ever throws, and the
    state they lead to is again such a state. *)
Theorem reachable_events_return (g : GameState) (e : event) :
  reachable g ->
  allowed e g ->
  (0 <= currentMove g < Z.of_nat (length (history g)))%Z
  /\ (exists b, currentSquares g = Some b /\ nineCells b)
  /\ (exists g', dispatch e g = Returns g' /\ reachable g').
Proof.
  intros Hreach Hallowed.
  destruct (reachable_current_board g Hreach) as (b & Hcur & _ & Hnine).
  split; [ exact (wf_cursor g (reachable_well_formed g Hreach)) | ].
  split; [ exists b; auto | ].
  assert (Hret : exists g', dispatch e g = Returns g').
  { destruct e as [i | k]; simpl.
    - rewrite Hcur. eexists. reflexivity.
    - eexists. reflexivity. }
  destruct Hret as [g' Hstep]. exists g'. split; [ exact Hstep | ].
  exact (reach_step g g' e Hreach Hallowed Hstep).
Qed.

(** X2.  Entry [k] of the history of a running game is a nine-cell board
    with exactly [k] marks and [9 - k] empty cells; X has as many marks as
    O when [k] is even and one more when [k] is odd.  Hence [k <= 9] and
    the history never has more than ten entries. *)
Theorem history_entry_mark_counts (g : GameState) (k : nat) (b : board) :
  reachable g ->
  nth_error (history g) k = Some b ->
  length b = 9
  /\ countMark VNull b = 9 - k
  /\ countMark (VStr "X") b + countMark (VStr "O") b = k
  /\ countMark (VStr "X") b
     = countMark (VStr "O") b + (if Nat.even k then 0 else 1)
  /\ k <= 9
  /\ length (history g) <= 10.
Proof.
  intros Hreach Hb.
  assert (Hlegal := reachable_boards_legal g Hreach k b Hb).
  destruct (legalBoard_counts k b Hlegal) as (Hnull & Hsum & Hdiff).
  destruct (legalBoard_nineCells k b Hlegal) as [Hlen _].
  repeat split; try assumption; try lia.
  destruct (nth_error (history g) 10) as [b10 | ] eqn:H10.
  - destruct (legalBoard_counts 10 b10 (reachable_boards_legal g Hreach 10 b10 H10))
      as (Hnull10 & _). lia.
  - apply nth_error_None in H10. exact H10.
Qed.

(** X3.  Only the latest entry of the history can be a won board: once a
    line is filled no further board is appended after it. *)
Theorem won_board_is_last_entry (g : GameState) (k : nat) (b : board) :
  reachable g ->
  nth_error (history g) k = Some b ->
  truthy (calculateWinner b) = true ->
  S k = length (history g).
Proof.
  intros Hreach Hb Hwon.
  assert (Hk : k < length (history g)) by (apply nth_error_Some; congruence).
  destruct (nth_error (history g) (S k)) as [b' | ] eqn:Hnext.
  - destruct (reachable_playedSteps g Hreach k b b' Hb Hnext) as (i & _ & Hplayed).
    apply played_Some in Hplayed. destruct Hplayed as (_ & Hnone & _).
    congruence.
  - apply nth_error_None in Hnext. lia.
Qed.

(** X4.  A won board in the history was won by the move that produced it:
    X wins only at an odd entry, not before entry 5, and O only at an even
    entry, not before entry 6. *)
Theorem winner_is_last_mover (g : GameState) (k : nat) (b : board) :
  reachable g ->
  nth_error (history g) k = Some b ->
  truthy (calculateWinner b) = true ->
  (calculateWinner b = VStr "X" /\ Nat.odd k = true /\ 5 <= k)
  \/ (calculateWinner b = VStr "O" /\ Nat.even k = true /\ 6 <= k).
Proof.
  intros Hreach Hb Hwon.
  exact (legalBoard_winner_move k b (reachable_boards_legal g Hreach k b Hb) Hwon).
Qed.

(** X5.  The status line of a running game: when the board on display is
    won it reads "Winner: " and the player who moved last (O at an even
    cursor, X at an odd one); otherwise it reads "Next Player: " and the
    player to move (X at an even cursor, O at an odd one). *)
Theorem status_of_running_game (g : GameState) (b : board) :
  reachable g ->
  currentSquares g = Some b ->
  status (xIsNext (currentMove g)) b
  = if truthy (calculateWinner b)
    then ("Winner: " ++ (if Z.even (currentMove g) then "O" else "X"))%string
    else ("Next Player: " ++ (if Z.even (currentMove g) then "X" else "O"))%string.
Proof.
  intros Hreach Hcur.
  destruct (index_in_range _ _ _ Hcur) as [Hc Hnth].
  assert (Heven : Z.even (currentMove g) = Nat.even (Z.to_nat (currentMove g))).
  { rewrite <- xIsNext_of_nat, Z2Nat.id by lia. symmetry. apply xIsNext_even. lia. }
  unfold status. destruct (truthy (calculateWinner b)) eqn:Hwon.
  - destruct (legalBoard_winner_move _ b
                (reachable_boards_legal g Hreach _ b Hnth) Hwon)
      as [(Hx & Hodd & _) | (Ho & Hev & _)].
    + rewrite Hx, Heven, <- Nat.negb_odd, Hodd. reflexivity.
    + rewrite Ho, Heven, Hev. reflexivity.
  - rewrite xIsNext_even by lia. reflexivity.
Qed.

(** X6.  When the cursor of a running game is at move 9 every cell of the
    board holds a mark, so every click is rejected whether or not somebody
    has won; with no filled line the status line then still announces a
    next player, O. *)
Theorem ninth_move_fills_board (g : GameState) :
  reachable g ->
  currentMove g = 9%Z ->
  exists b,
    currentSquares g = Some b
    /\ (forall j, j <= 8 -> isMark (get b j))
    /\ (forall i, i <= 8 -> dispatch (Click i) g = Returns g)
    /\ (calculateWinner b = VNull ->
        status (xIsNext (currentMove g)) b = "Next Player: O").
Proof.
  intros Hreach Hnine.
  destruct (reachable_current_board g Hreach) as (b & Hcur & Hnth & Hlen & Hcells).
  rewrite Hnine in Hnth. change (Z.to_nat 9) with 9 in Hnth.
  destruct (legalBoard_counts 9 b (reachable_boards_legal g Hreach 9 b Hnth))
    as (Hnull & _).
  assert (Hfull : forall j, j <= 8 -> isMark (get b j)).
  { intros j Hj. destruct (Hcells j ltac:(lia)) as [Hempty | Hmark];
      [ | exact Hmark ].
    exfalso.
    assert (Hin : In VNull b)
      by (rewrite <- Hempty; apply nth_In; lia).
    apply (count_occ_In value_eq_dec) in Hin. unfold countMark in Hnull. lia. }
  exists b. split; [ exact Hcur | ]. split; [ exact Hfull | ]. split.
  - intros i Hi. unfold dispatch. rewrite Hcur. f_equal.
    apply handleClick_rejects. left.
    destruct (Hfull i Hi) as [-> | ->]; reflexivity.
  - intros Hnone. unfold status. rewrite Hnone, Hnine. reflexivity.
Qed.

(** X7.  Whatever the state, and wherever its cursor points, after
    [handlePlay board] the cursor is on the last entry of the history and
    the board on display is [board]; the new history is a prefix of the old
    one followed by [board]. *)
Theorem handlePlay_shows_played_board (nextSquares : board) (g : GameState) :
  currentSquares (handlePlay nextSquares g) = Some nextSquares
  /\ currentMove (handlePlay nextSquares g)
     = (Z.of_nat (length (history (handlePlay nextSquares g))) - 1)%Z
  /\ 1 <= length (history (handlePlay nextSquares g)) <= length (history g) + 1
  /\ exists n, history (handlePlay nextSquares g)
               = firstn n (history g) ++ [nextSquares].
Proof.
  split; [ apply currentSquares_handlePlay | ].
  split; [ reflexivity | ].
  unfold handlePlay, slice0. cbn [history].
  split; [ | eexists; reflexivity ].
  rewrite length_app, length_firstn. cbn [length]. lia.
Qed.

(** X8.  Clicking the same square twice is the same as clicking it once:
    the second click finds the square occupied (or the first one was
    already rejected) and changes nothing. *)
Theorem click_same_cell_twice (g g' : GameState) (i : nat) :
  dispatch (Click i) g = Returns g' ->
  dispatch (Click i) g' = Returns g'.
Proof.
  intros Hstep. unfold dispatch in Hstep.
  destruct (currentSquares g) as [squares | ] eqn:Hcur; [ | discriminate ].
  injection Hstep as <-.
  destruct (truthy (get squares i)) eqn:Hfree;
    [ rewrite handleClick_rejects by auto;
      unfold dispatch; rewrite Hcur; f_equal; apply handleClick_rejects; auto | ].
  destruct (truthy (calculateWinner squares)) eqn:Hwon;
    [ rewrite handleClick_rejects by auto;
      unfold dispatch; rewrite Hcur; f_equal; apply handleClick_rejects; auto | ].
  rewrite handleClick_accepts by assumption.
  unfold dispatch. rewrite currentSquares_handlePlay. f_equal.
  apply handleClick_rejects. left.
  rewrite get_set_same. destruct (xIsNext (currentMove g)); reflexivity.
Qed.

End GameFacts.

Lemma drawnState_reachable : reachable drawnState.
Proof.
  apply (reachable_runAllowed drawnGame initialState);
    [ apply reach_init | vm_compute; reflexivity ].
Qed.

Lemma topRowWon_reachable : reachable topRowWon.
Proof.
  apply (reachable_runAllowed topRowGame initialState);
    [ apply reach_init | reflexivity ].
Qed.

Lemma reachable_events_return_witness :
  exists g', dispatch (Jump 2) topRowWon = Returns g' /\ reachable g'.
Proof.
  destruct (reachable_events_return topRowWon (Jump 2) topRowWon_reachable)
    as (_ & _ & Hret).
  - simpl. lia.
  - exact Hret.
Defined.

Lemma history_entry_mark_counts_witness :
  countMark (VStr "X") topRowBoard = 3 /\ countMark (VStr "O") topRowBoard = 2.
Proof.
  destruct (history_entry_mark_counts topRowWon 5 topRowBoard
              topRowWon_reachable eq_refl)
    as (_ & _ & Hsum & Hdiff & _).
  change (if Nat.even 5 then 0 else 1) with 1 in Hdiff. lia.
Defined.

Lemma won_board_is_last_entry_witness :
  6 = length (history topRowWon).
Proof.
  exact (won_board_is_last_entry topRowWon 5 topRowBoard
           topRowWon_reachable eq_refl eq_refl).
Defined.

Lemma winner_is_last_mover_witness :
  (calculateWinner topRowBoard = VStr "X" /\ Nat.odd 5 = true /\ 5 <= 5)
  \/ (calculateWinner topRowBoard = VStr "O" /\ Nat.even 5 = true /\ 6 <= 5).
Proof.
  exact (winner_is_last_mover topRowWon 5 topRowBoard
           topRowWon_reachable eq_refl eq_refl).
Defined.

Lemma status_of_running_game_witness :
  status (xIsNext (currentMove topRowWon)) topRowBoard = "Winner: X".
Proof.
  rewrite (status_of_running_game topRowWon topRowBoard
             topRowWon_reachable eq_refl).
  reflexivity.
Defined.

Lemma ninth_move_fills_board_witness :
  calculateWinner drawnBoard = VNull
  /\ forall i, i <= 8 -> dispatch (Click i) drawnState = Returns drawnState.
Proof.
  split; [ reflexivity | ].
  destruct (ninth_move_fills_board drawnState drawnState_reachable eq_refl)
    as (b & _ & _ & Hclicks & _).
  exact Hclicks.
Defined.

Lemma click_same_cell_twice_witness :
  dispatch (Click 4) (mkGame [fill 9 VNull; set 4 (VStr "X") (fill 9 VNull)] 1)
  = Returns (mkGame [fill 9 VNull; set 4 (VStr "X") (fill 9 VNull)] 1).
Proof.
  exact (click_same_cell_twice initialState _ 4 eq_refl).
Defined.

(** ** The buttons of the list of moves *)

Section MoveButtons.

Lemma mapIndexed_In {A B : Type} (f : A -> nat -> B) (l : list A) :
  forall from y,
    In y (mapIndexed f from l) ->
    exists k x, nth_error l k = Some x /\ y = f x (from + k).
Proof.
  induction l as [ | x l IH]; intros from y Hin.
  - destruct Hin.
  - destruct Hin as [<- | Hin].
    + exists 0, x. rewrite Nat.add_0_r. auto.
    + destruct (IH (S from) y Hin) as (k & x' & Hk & ->).
      exists (S k), x'. split; [ exact Hk | ]. f_equal. lia.
Qed.

Lemma moves_keys_from (cur : Z) (h : list board) :
  forall from,
    map keyOf (mapIndexed (fun _ move => moveEntry cur move) from h)
    = seq from (length h).
Proof.
  induction h as [ | b h IH]; intros from.
  - reflexivity.
  - simpl. rewrite IH. f_equal.
    unfold moveEntry. destruct (cur =? Z.of_nat from)%Z; reflexivity.
Qed.

(** X9.  The list of moves is keyed 0, 1, ..., n-1, without repetition.
    Each button jumps to the index of its own entry, which is an entry of
    the history other than the one on display, and the jump puts that
    entry on display; the entry that is not a button is the one on
    display.  So the jumps the page offers are always in range. *)
Theorem moves_buttons_jump_in_range (g : GameState) (m : moveItem) :
  In m (moves g) ->
  map keyOf (moves g) = seq 0 (length (history g))
  /\ NoDup (map keyOf (moves g))
  /\ keyOf m < length (history g)
  /\ match m with
     | GoToButton key target _ =>
         target = Z.of_nat key
         /\ currentMove g <> target
         /\ allowed (Jump target) g
         /\ currentSquares (jumpTo target g) = nth_error (history g) key
     | YouAreAt key _ => currentMove g = Z.of_nat key
     end.
Proof.
  intros Hin.
  assert (Hkeys : map keyOf (moves g) = seq 0 (length (history g)))
    by apply moves_keys_from.
  split; [ exact Hkeys | ].
  split; [ rewrite Hkeys; apply seq_NoDup | ].
  destruct (mapIndexed_In _ _ 0 m Hin) as (k & b & Hk & ->).
  assert (Hlt : k < length (history g)) by (apply nth_error_Some; congruence).
  cbn [Nat.add]. unfold moveEntry.
  destruct (Z.eqb_spec (currentMove g) (Z.of_nat k)) as [Heq | Hne]; cbn [keyOf].
  - split; [ exact Hlt | exact Heq ].
  - split; [ exact Hlt | ].
    split; [ reflexivity | ].
    split; [ exact Hne | ].
    split; [ simpl; lia | ].
    unfold currentSquares, jumpTo. cbn [history currentMove].
    destruct (index_Some_in_range (history g) (Z.of_nat k) ltac:(lia)) as [-> _].
    rewrite Nat2Z.id. reflexivity.
Qed.

End MoveButtons.

Lemma moves_buttons_jump_in_range_witness :
  currentSquares (jumpTo 2 topRowWon)
  = Some [VStr "X"; VNull; VNull; VNull; VStr "O"; VNull; VNull; VNull; VNull].
Proof.
  destruct (moves_buttons_jump_in_range topRowWon (GoToButton 2 2 "Go to Move #2"))
    as (_ & _ & _ & _ & _ & _ & Hshow).
  - simpl. tauto.
  - rewrite Hshow. reflexivity.
Defined.

(** ** Task lists under the reducer *)

Section TaskLists.

Import Tasks.

Lemma strict_eq_false (a b : value) : strict_eq a b = false <-> a <> b.
Proof.
  unfold strict_eq. destruct (value_eq_dec a b); split; congruence.
Qed.

Lemma isCase_refl (label : string) : isCase (VStr label) label = true.
Proof. unfold isCase. apply strict_eq_true. reflexivity. Qed.

Lemma remove_absent_id (x : value) (ts : list task) :
  (forall t, In t ts -> id t <> x) ->
  filter (fun t => negb (strict_eq (id t) x)) ts = ts.
Proof.
  intros Habsent. apply forallb_filter_id. apply forallb_forall.
  intros t Hin. apply negb_true_iff, strict_eq_false. apply Habsent. exact Hin.
Qed.

Lemma replace_keeps_ids (edited : task) (ts : list task) :
  taskIds (map (fun t => if strict_eq (id t) (id edited) then edited else t) ts)
  = taskIds ts.
Proof.
  unfold taskIds. rewrite map_map. apply map_ext.
  intros t. destruct (strict_eq (id t) (id edited)) eqn:Heq; [ | reflexivity ].
  apply strict_eq_true in Heq. congruence.
Qed.

Lemma replace_absent_id (edited : task) (ts : list task) :
  (forall t, In t ts -> id t <> id edited) ->
  map (fun t => if strict_eq (id t) (id edited) then edited else t) ts = ts.
Proof.
  intros Habsent. rewrite <- (map_id ts) at 2. apply map_ext_in.
  intros t Hin.
  assert (Hne : strict_eq (id t) (id edited) = false)
    by (apply strict_eq_false, Habsent; exact Hin).
  rewrite Hne. reflexivity.
Qed.

Lemma replace_twice (edited : task) (ts : list task) :
  let f := fun t => if strict_eq (id t) (id edited) then edited else t in
  map f (map f ts) = map f ts.
Proof.
  intros f. rewrite map_map. apply map_ext.
  intros t. unfold f. destruct (strict_eq (id t) (id edited)) eqn:Heq.
  - assert (Hrefl : strict_eq (id edited) (id edited) = true)
      by (apply strict_eq_true; reflexivity).
    rewrite Hrefl. reflexivity.
  - rewrite Heq. reflexivity.
Qed.

Lemma remove_twice (x : value) (ts : list task) :
  let keep := fun t => negb (strict_eq (id t) x) in
  filter keep (filter keep ts) = filter keep ts.
Proof.
  intros keep. apply forallb_filter_id. apply forallb_filter.
Qed.

Lemma NoDup_ids_filter (keep : task -> bool) (ts : list task) :
  NoDup (taskIds ts) -> NoDup (taskIds (filter keep ts)).
Proof.
  unfold taskIds. induction ts as [ | t ts IH]; intros Hnd.
  - constructor.
  - inversion Hnd as [ | ? ? Hnotin Hrest]; subst. simpl.
    destruct (keep t); [ | apply IH; exact Hrest ].
    simpl. constructor; [ | apply IH; exact Hrest ].
    intros Hin. apply Hnotin.
    apply in_map_iff in Hin. destruct Hin as (t' & Hid & Hin').
    apply filter_In in Hin'. apply in_map_iff. exists t'. tauto.
Qed.

Lemma NoDup_ids_snoc (ts : list task) (t : task) :
  NoDup (taskIds ts) -> ~ In (id t) (taskIds ts) -> NoDup (taskIds (ts ++ [t])).
Proof.
  intros Hnd Hfresh. unfold taskIds in *. rewrite map_app. simpl.
  apply NoDup_app_remove_l with (l := []). simpl.
  apply Permutation_NoDup with (l := id t :: map id ts).
  - apply Permutation_cons_append.
  - constructor; assumption.
Qed.

(** X10.  The "remove" action deletes exactly the tasks whose id is
    [action.id]: what is left are the tasks with another id (never more
    tasks than before); when no task has that id the list comes back
    unchanged, and removing the same id again changes nothing. *)
Theorem taskReducers_remove (ts : list task) (a : action) :
  type a = VStr "remove" ->
  exists rest,
    taskReducers ts a = Returns (Some rest)
    /\ (forall t, In t rest <-> In t ts /\ id t <> actionId a)
    /\ length rest <= length ts
    /\ ((forall t, In t ts -> id t <> actionId a) -> rest = ts)
    /\ taskReducers rest a = Returns (Some rest).
Proof.
  intros Htype.
  assert (Hrun : forall l,
             taskReducers l a
             = Returns (Some (filter (fun t => negb (strict_eq (id t) (actionId a))) l))).
  { intros l. unfold taskReducers. rewrite Htype. reflexivity. }
  eexists. split; [ apply Hrun | ].
  split; [ | split; [ apply filter_length_le | split ] ].
  - intros t. rewrite filter_In, negb_true_iff, strict_eq_false. reflexivity.
  - apply remove_absent_id.
  - rewrite Hrun. do 2 f_equal. apply remove_twice.
Qed.

(** X11.  The "edit" action with a task puts [action.task] in the place of
    every task that has its id and leaves the others alone: the list keeps
    its length and its ids in order; when no task has that id the list
    comes back unchanged, and applying the same edit again changes
    nothing. *)
Theorem taskReducers_edit (ts : list task) (a : action) (edited : task) :
  type a = VStr "edit" ->
  actionTask a = Some edited ->
  exists next,
    taskReducers ts a = Returns (Some next)
    /\ length next = length ts
    /\ taskIds next = taskIds ts
    /\ (forall k t, nth_error ts k = Some t ->
                    (id t = id edited -> nth_error next k = Some edited)
                    /\ (id t <> id edited -> nth_error next k = Some t))
    /\ ((forall t, In t ts -> id t <> id edited) -> next = ts)
    /\ taskReducers next a = Returns (Some next).
Proof.
  intros Htype Htask.
  assert (Hrun : forall l,
             taskReducers l a
             = Returns (Some (map (fun t => if strict_eq (id t) (id edited)
                                            then edited else t) l))).
  { intros l. unfold taskReducers. rewrite Htype, Htask. reflexivity. }
  eexists. split; [ apply Hrun | ].
  split; [ apply length_map | ].
  split; [ apply replace_keeps_ids | ].
  split; [ | split ].
  - intros k t Hk. rewrite nth_error_map, Hk. cbn [option_map]. split.
    + intros Heq. apply strict_eq_true in Heq. rewrite Heq. reflexivity.
    + intros Hne. apply strict_eq_false in Hne. rewrite Hne. reflexivity.
  - apply replace_absent_id.
  - rewrite Hrun. do 2 f_equal. apply replace_twice.
Qed.

(** The seven ways through [taskReducers]. *)
Lemma taskReducers_cases (ts : list task) (a : action) :
  (type a = VStr "add" /\ exists next, taskReducers ts a = Returns (Some next))
  \/ (type a = VStr "remove"
      /\ exists next, taskReducers ts a = Returns (Some next))
  \/ (type a = VStr "edit" /\ actionTask a <> None
      /\ exists next, taskReducers ts a = Returns (Some next))
  \/ (type a = VStr "edit" /\ actionTask a = None /\ ts = []
      /\ taskReducers ts a = Returns (Some []))
  \/ (type a = VStr "edit" /\ actionTask a = None /\ ts <> []
      /\ taskReducers ts a = Throws "TypeError")
  \/ (type a = VStr "default"
      /\ taskReducers ts a = Throws "Unknown action: default")
  \/ (type a <> VStr "add" /\ type a <> VStr "remove"
      /\ type a <> VStr "edit" /\ type a <> VStr "default"
      /\ taskReducers ts a = Returns None).
Proof.
  unfold taskReducers.
  destruct (isCase (type a) "add") eqn:Hadd;
    [ apply isCase_true in Hadd; left; eauto | right ].
  destruct (isCase (type a) "remove") eqn:Hrem;
    [ apply isCase_true in Hrem; left; eauto | right ].
  destruct (isCase (type a) "edit") eqn:Hedit.
  - apply isCase_true in Hedit.
    destruct (actionTask a) as [edited | ].
    + left. split; [ exact Hedit | ]. split; [ discriminate | eauto ].
    + right. destruct ts as [ | t ts].
      * left. auto.
      * right. left. repeat split; auto. discriminate.
  - do 3 right.
    destruct (isCase (type a) "default") eqn:Hdef.
    + apply isCase_true in Hdef. left. rewrite Hdef. auto.
    + right.
      repeat split;
        intros Heq; rewrite Heq, isCase_refl in *; discriminate.
Qed.

(** X12.  When [taskReducers] yields a task list, when it throws and when
    it yields [undefined]: a list for "add" and "remove", and for "edit"
    if the action carries a task or there is no task to visit; an error
    for "edit" without a task on a non-empty list and for "default";
    [undefined] for every other type. *)
Theorem taskReducers_outcomes (ts : list task) (a : action) :
  ((exists next, taskReducers ts a = Returns (Some next))
   <-> type a = VStr "add" \/ type a = VStr "remove"
       \/ (type a = VStr "edit" /\ (actionTask a <> None \/ ts = [])))
  /\ ((exists msg, taskReducers ts a = Throws msg)
      <-> (type a = VStr "edit" /\ actionTask a = None /\ ts <> [])
          \/ type a = VStr "default")
  /\ (taskReducers ts a = Returns None
      <-> type a <> VStr "add" /\ type a <> VStr "remove"
          /\ type a <> VStr "edit" /\ type a <> VStr "default").
Proof.
  destruct (taskReducers_cases ts a)
    as [(Ht & next & Hrun) | [(Ht & next & Hrun) | [(Ht & Htask & next & Hrun)
       | [(Ht & Htask & Hts & Hrun) | [(Ht & Htask & Hts & Hrun)
       | [(Ht & Hrun) | (H1 & H2 & H3 & H4 & Hrun)]]]]]];
    rewrite Hrun; rewrite ?Ht;
    (split; [ | split ]); split; intros Hyp;
    repeat match goal with
           | H : exists _, _ |- _ => destruct H
           | H : _ /\ _ |- _ => destruct H
           | H : _ \/ _ |- _ => destruct H
           end;
    try congruence; try discriminate; eauto 7;
    try (repeat split; discriminate).
Qed.

End TaskLists.

Section TaskListsComposed.

Import Tasks.


(** X14.  A task list whose ids are distinct keeps distinct ids under
    every action that yields a list, provided an "add" action brings an id
    that no task has. *)
Theorem taskReducers_keeps_ids_distinct (ts next : list task) (a : action) :
  NoDup (taskIds ts) ->
  (type a = VStr "add" -> ~ In (actionId a) (taskIds ts)) ->
  taskReducers ts a = Returns (Some next) ->
  NoDup (taskIds next).
Proof.
  intros Hnd Hfresh. unfold taskReducers.
  destruct (isCase (type a) "add") eqn:Hadd.
  { apply isCase_true in Hadd. intros [= <-].
    apply NoDup_ids_snoc; [ exact Hnd | apply Hfresh; exact Hadd ]. }
  destruct (isCase (type a) "remove").
  { intros [= <-]. apply NoDup_ids_filter. exact Hnd. }
  destruct (isCase (type a) "edit").
  { destruct (actionTask a) as [edited | ].
    - intros [= <-]. rewrite replace_keeps_ids. exact Hnd.
    - destruct ts; [ intros [= <-]; constructor | discriminate ]. }
  destruct (isCase (type a) "default"); discriminate.
Qed.

End TaskListsComposed.

(** ** The two reducers and the two versions of the component *)

Section Reducers.

Import Tasks TaskApp.

(** X15.  [tasksReducer] does for "added", "changed" and "deleted" what
    [taskReducers] does for "add", "edit" and "remove": same list, same
    error. *)
Theorem tasksReducer_matches_taskReducers
    (ts : list task) (i txt : value) (tk : option task) :
  let lift := fun (o : outcome (list task)) =>
                match o with
                | Returns next => Returns (Some next)
                | Throws msg => Throws msg
                end in
  taskReducers ts (mkAction (VStr "add") i txt tk)
  = lift (tasksReducer ts (mkAction (VStr "added") i txt tk))
  /\ taskReducers ts (mkAction (VStr "edit") i txt tk)
     = lift (tasksReducer ts (mkAction (VStr "changed") i txt tk))
  /\ taskReducers ts (mkAction (VStr "remove") i txt tk)
     = lift (tasksReducer ts (mkAction (VStr "deleted") i txt tk)).
Proof.
  intros lift. repeat split.
  unfold taskReducers, tasksReducer. cbn [type actionTask].
  change (isCase (VStr "edit") "add") with false.
  change (isCase (VStr "edit") "remove") with false.
  change (isCase (VStr "edit") "edit") with true.
  change (isCase (VStr "changed") "added") with false.
  change (isCase (VStr "changed") "changed") with true.
  cbv iota. destruct tk as [edited | ]; [ reflexivity | ].
  destruct ts; reflexivity.
Qed.


Lemma setTasksStep_dispatchStep (e : appEvent) (st : AppState) :
  setTasksStep e st = dispatchStep e st.
Proof.
  unfold setTasksStep, dispatchStep, tasksReducer.
  destruct e as [txt | [edited | ] | taskId]; cbn [actionOf type actionTask
                                                   actionId actionText counterAfter].
  - reflexivity.
  - change (isCase (VStr "changed") "added") with false.
    change (isCase (VStr "changed") "changed") with true.
    reflexivity.
  - change (isCase (VStr "changed") "added") with false.
    change (isCase (VStr "changed") "changed") with true.
    cbv iota. destruct (tasks st); reflexivity.
  - reflexivity.
Qed.

(** X17.  The [useState] version of the component and the [useReducer]
    version are equivalent: for every handler call and every state, the
    array the handler passes to [setTasks] is the array [tasksReducer]
    returns for the action the handler dispatches, the counter moves the
    same way, and one throws exactly when the other does; so whole runs
    of handler calls agree as well. *)
Theorem setTasks_handlers_equal_reducer (es : list appEvent) (st : AppState) :
  (forall e, setTasksStep e st = dispatchStep e st)
  /\ runApp es st
     = fold_left (fun (o : outcome AppState) e =>
                    match o with
                    | Returns st' => setTasksStep e st'
                    | Throws msg => Throws msg
                    end) es (Returns st).
Proof.
  split; [ intros e; apply setTasksStep_dispatchStep | ].
  revert st. induction es as [ | e es IH]; intros st.
  - reflexivity.
  - cbn [runApp fold_left]. rewrite setTasksStep_dispatchStep.
    destruct (dispatchStep e st) as [st1 | msg]; [ apply IH | ].
    clear. induction es as [ | e' es IH']; [ reflexivity | exact IH' ].
Qed.

Lemma postIncrement_below (n : Z) :
  (n < 2 ^ 53)%Z -> postIncrement n = (n + 1)%Z.
Proof.
  intros Hn. unfold postIncrement.
  destruct (Z.ltb_spec n (2 ^ 53)); [ reflexivity | lia ].
Qed.

Lemma dispatchStep_freshIds (e : appEvent) (st st' : AppState) :
  freshIds st ->
  (nextId st < 2 ^ 53)%Z ->
  dispatchStep e st = Returns st' ->
  freshIds st'
  /\ (nextId st <= nextId st' <= nextId st + 1)%Z.
Proof.
  intros [Hnd Hbelow] Hroom. rewrite <- setTasksStep_dispatchStep.
  destruct e as [txt | [edited | ] | taskId]; cbn [setTasksStep].
  - intros [= <-]. unfold freshIds. cbn [nextId tasks]. rewrite postIncrement_below by exact Hroom.
    split; [ split | lia ].
    + apply NoDup_ids_snoc; [ exact Hnd | ].
      cbn [id]. intros Hin. apply in_map_iff in Hin.
      destruct Hin as (t & Hid & Hin).
      destruct (Hbelow t Hin) as (k & Hk & Hlt). rewrite Hk in Hid.
      injection Hid as ->. lia.
    + intros t Hin. apply in_app_or in Hin. destruct Hin as [Hin | [<- | []]].
      * destruct (Hbelow t Hin) as (k & Hk & Hlt). exists k. split; [ exact Hk | lia ].
      * exists (nextId st). split; [ reflexivity | lia ].
  - intros [= <-]. unfold freshIds. cbn [nextId tasks]. split; [ split | lia ].
    + rewrite replace_keeps_ids. exact Hnd.
    + intros t Hin. apply in_map_iff in Hin. destruct Hin as (t0 & Ht & Hin).
      destruct (Hbelow t0 Hin) as (k & Hk & Hlt).
      destruct (strict_eq (id t0) (id edited)) eqn:Heq.
      * apply strict_eq_true in Heq. subst t. exists k. split; [ congruence | exact Hlt ].
      * subst t. exists k. auto.
  - destruct (tasks st) as [ | t0 rest] eqn:Hts; [ | discriminate ].
    intros [= <-]. unfold freshIds. cbn [nextId tasks]. split; [ split | lia ].
    + constructor.
    + intros t [].
  - intros [= <-]. unfold freshIds. cbn [nextId tasks]. split; [ split | lia ].
    + apply NoDup_ids_filter. exact Hnd.
    + intros t Hin. apply filter_In in Hin. apply Hbelow. tauto.
Qed.

Lemma runApp_freshIds (es : list appEvent) :
  forall st st',
    freshIds st ->
    (nextId st + Z.of_nat (length es) <= 2 ^ 53)%Z ->
    runApp es st = Returns st' ->
    freshIds st' /\ (nextId st' <= nextId st + Z.of_nat (length es))%Z.
Proof.
  induction es as [ | e es IH]; intros st st' Hfresh Hroom Hrun.
  - injection Hrun as <-. split; [ exact Hfresh | simpl; lia ].
  - cbn [runApp] in Hrun. cbn [length] in Hroom |- *.
    destruct (dispatchStep e st) as [st1 | msg] eqn:Hstep; [ | discriminate ].
    destruct (dispatchStep_freshIds e st st1 Hfresh ltac:(lia) Hstep)
      as [Hfresh1 Hcount].
    destruct (IH st1 st' Hfresh1 ltac:(lia) Hrun) as [Hfresh' Hcount'].
    split; [ exact Hfresh' | lia ].
Qed.

Lemma runApp_counter_grows (es : list appEvent) :
  forall st st', runApp es st = Returns st' -> (nextId st <= nextId st')%Z.
Proof.
  induction es as [ | e es IH]; intros st st' Hrun.
  - injection Hrun as <-. lia.
  - cbn [runApp] in Hrun.
    destruct (dispatchStep e st) as [st1 | msg] eqn:Hstep; [ | discriminate ].
    specialize (IH st1 st' Hrun).
    unfold dispatchStep in Hstep.
    destruct (tasksReducer (tasks st) (actionOf e st)); [ | discriminate ].
    injection Hstep as <-. cbn [nextId] in IH.
    destruct e; cbn [counterAfter] in IH; try exact IH.
    unfold postIncrement in IH. destruct (nextId st <? 2 ^ 53)%Z; lia.
Qed.

Lemma initialApp_freshIds : freshIds initialApp.
Proof.
  split.
  - repeat constructor; simpl; intuition discriminate.
  - intros t [<- | [<- | [<- | []]]]; eexists; (split; [ reflexivity | simpl; lia ]).
Qed.

(** X18.  In the task list component the ids of the tasks stay distinct:
    from the three initial tasks and the counter at 3, after any run of
    fewer than 2^53 - 3 handler calls that does not throw, no two tasks
    share an id, every id is a number below the counter, and the counter
    has grown by at most one per call. *)
Theorem taskApp_ids_stay_distinct (es : list appEvent) (st : AppState) :
  (Z.of_nat (length es) <= 2 ^ 53 - 3)%Z ->
  runApp es initialApp = Returns st ->
  NoDup (taskIds (tasks st))
  /\ (forall t, In t (tasks st) ->
                exists k, id t = VNum k /\ (k < nextId st)%Z)
  /\ (3 <= nextId st <= 3 + Z.of_nat (length es))%Z.
Proof.
  intros Hlen Hrun.
  destruct (runApp_freshIds es initialApp st initialApp_freshIds) as [[Hnd Hbelow] Hcount].
  - cbn [initialApp nextId]. lia.
  - exact Hrun.
  - split; [ exact Hnd | ]. split; [ exact Hbelow | ].
    cbn [initialApp nextId] in Hcount. split; [ | exact Hcount ].
    exact (runApp_counter_grows es initialApp st Hrun).
Qed.

End Reducers.

Lemma taskReducers_remove_witness :
  Tasks.taskReducers TaskApp.initialTasks
    (Tasks.mkAction (VStr "remove") (VNum 1) VUndefined None)
  = Returns (Some [ Tasks.mkTask (VNum 0) (VStr "Visit Kafka Museum") (VBool true);
                    Tasks.mkTask (VNum 2) (VStr "Lennon Wall pic") (VBool false) ]).
Proof.
  destruct (taskReducers_remove TaskApp.initialTasks
              (Tasks.mkAction (VStr "remove") (VNum 1) VUndefined None) eq_refl)
    as (rest & Hrun & _).
  rewrite Hrun. f_equal. injection Hrun as <-. reflexivity.
Defined.

Lemma taskReducers_edit_witness :
  taskIds TaskApp.initialTasks = [VNum 0; VNum 1; VNum 2]
  /\ exists next,
       Tasks.taskReducers TaskApp.initialTasks
         (Tasks.mkAction (VStr "edit") VUndefined VUndefined
            (Some (Tasks.mkTask (VNum 1) (VStr "Watch a film") (VBool true))))
       = Returns (Some next)
       /\ taskIds next = [VNum 0; VNum 1; VNum 2].
Proof.
  split; [ reflexivity | ].
  destruct (taskReducers_edit TaskApp.initialTasks
              (Tasks.mkAction (VStr "edit") VUndefined VUndefined
                 (Some (Tasks.mkTask (VNum 1) (VStr "Watch a film") (VBool true))))
              (Tasks.mkTask (VNum 1) (VStr "Watch a film") (VBool true))
              eq_refl eq_refl)
    as (next & Hrun & _ & Hids & _).
  exists next. split; [ exact Hrun | exact Hids ].
Defined.


Lemma taskReducers_keeps_ids_distinct_witness :
  NoDup [VNum 0; VNum 1; VNum 2; VNum 3].
Proof.
  apply (taskReducers_keeps_ids_distinct TaskApp.initialTasks
           (TaskApp.initialTasks
            ++ [Tasks.mkTask (VNum 3) (VStr "Charles Bridge") (VBool false)])
           (Tasks.mkAction (VStr "add") (VNum 3) (VStr "Charles Bridge") None)).
  - repeat constructor; simpl; intuition discriminate.
  - intros _. simpl. intuition discriminate.
  - reflexivity.
Defined.


Lemma taskApp_ids_stay_distinct_witness :
  exists st,
    TaskApp.runApp
      [TaskApp.AddTask (VStr "Charles Bridge"); TaskApp.DeleteTask (VNum 1);
       TaskApp.AddTask (VStr "Petrin Tower")] TaskApp.initialApp
    = Returns st
    /\ taskIds (TaskApp.tasks st) = [VNum 0; VNum 2; VNum 3; VNum 4]
    /\ NoDup (taskIds (TaskApp.tasks st)).
Proof.
  eexists. split; [ reflexivity | ]. split; [ reflexivity | ].
  apply (taskApp_ids_stay_distinct
           [TaskApp.AddTask (VStr "Charles Bridge"); TaskApp.DeleteTask (VNum 1);
            TaskApp.AddTask (VStr "Petrin Tower")]).
  - simpl. lia.
  - reflexivity.
Defined.

(** ** The filterable product table *)

Section ProductTableFacts.

Import ProductTable.

Variable toLowerCase : string -> string.

Lemma visit_cases (ft : string) (so : bool) (rows : list row) (last : value)
    (p : product) :
  visit toLowerCase ft so (rows, last) p
  = if shownProduct toLowerCase ft so p
    then (rows ++ groupedRows last [p], category p)
    else (rows, last).
Proof.
  unfold visit, shownProduct.
  destruct (indexOfIsMinusOne (toLowerCase (name p)) (toLowerCase ft));
    [ reflexivity | ].
  destruct so, (truthy (stocked p)); cbn [negb andb orb]; try reflexivity;
    cbn [groupedRows];
    destruct (negb (strict_eq (category p) last)); cbn [app];
      rewrite <- ?app_assoc; reflexivity.
Qed.

(** The loop is: filter, then group. *)
Lemma fold_visit (ft : string) (so : bool) (ps : list product) :
  forall rows last,
    fst (fold_left (visit toLowerCase ft so) ps (rows, last))
    = rows ++ groupedRows last (filter (shownProduct toLowerCase ft so) ps).
Proof.
  induction ps as [ | p ps IH]; intros rows last.
  - simpl. rewrite app_nil_r. reflexivity.
  - cbn [fold_left filter]. rewrite visit_cases.
    destruct (shownProduct toLowerCase ft so p).
    + rewrite IH. cbn [groupedRows]. rewrite <- !app_assoc. reflexivity.
    + apply IH.
Qed.

Lemma tableRows_grouped (ps : list product) (ft : string) (so : bool) :
  tableRows toLowerCase ps ft so
  = groupedRows VNull (filter (shownProduct toLowerCase ft so) ps).
Proof. unfold tableRows. rewrite fold_visit. reflexivity. Qed.

Lemma rowProducts_app (r1 r2 : list row) :
  rowProducts (r1 ++ r2) = rowProducts r1 ++ rowProducts r2.
Proof.
  induction r1 as [ | [c k | p k] r1 IH]; simpl; [ | | rewrite IH ]; auto.
Qed.

Lemma rowProducts_grouped (ps : list product) :
  forall last, rowProducts (groupedRows last ps) = ps.
Proof.
  induction ps as [ | p ps IH]; intros last; [ reflexivity | ].
  cbn [groupedRows]. rewrite rowProducts_app.
  destruct (negb (strict_eq (category p) last)); simpl; rewrite IH; reflexivity.
Qed.

Lemma index_empty_needle (s : string) : String.index 0 "" s = Some 0.
Proof. destruct s; reflexivity. Qed.

(** X19.  The product rows of the table are exactly the products that
    pass both tests, the name containing the filter text when both are
    lower-cased and, if "in stock only" is ticked, [stocked] being truthy,
    in the order of the input.  With no filter text and the box unticked,
    every product has its row. *)
Theorem tableRows_show_matching_products
    (ps : list product) (ft : string) (so : bool) :
  rowProducts (tableRows toLowerCase ps ft so)
  = filter (shownProduct toLowerCase ft so) ps
  /\ (forall p, In p (rowProducts (tableRows toLowerCase ps ft so))
                <-> In p ps
                    /\ String.index 0 (toLowerCase ft) (toLowerCase (name p))
                       <> None
                    /\ (so = true -> truthy (stocked p) = true))
  /\ (toLowerCase "" = "" ->
      rowProducts (tableRows toLowerCase ps (filterText initialFilter)
                             (inStockOnly initialFilter))
      = ps).
Proof.
  assert (Hrows : forall ft' so',
             rowProducts (tableRows toLowerCase ps ft' so')
             = filter (shownProduct toLowerCase ft' so') ps)
    by (intros; rewrite tableRows_grouped; apply rowProducts_grouped).
  split; [ apply Hrows | split ].
  - intros p. rewrite Hrows, filter_In. unfold shownProduct, indexOfIsMinusOne.
    destruct (String.index 0 (toLowerCase ft) (toLowerCase (name p)));
      destruct so, (truthy (stocked p)); cbn [negb andb orb];
      intuition congruence.
  - intros Hempty. rewrite Hrows. apply forallb_filter_id, forallb_forall.
    intros p _. unfold shownProduct, indexOfIsMinusOne. cbn [filterText inStockOnly initialFilter].
    rewrite Hempty, index_empty_needle. reflexivity.
Qed.

(** X20.  Hidden products have no effect on the table: rendering the
    products that pass the tests with no filter at all gives the same
    rows, headers included, as rendering the whole list with the
    filter. *)
Theorem tableRows_of_shown_products
    (ps : list product) (ft : string) (so : bool) :
  toLowerCase "" = "" ->
  tableRows toLowerCase (filter (shownProduct toLowerCase ft so) ps) "" false
  = tableRows toLowerCase ps ft so.
Proof.
  intros Hempty. rewrite !tableRows_grouped. f_equal.
  apply forallb_filter_id, forallb_forall.
  intros p _. unfold shownProduct, indexOfIsMinusOne.
  rewrite Hempty, index_empty_needle. reflexivity.
Qed.

Lemma groupedRows_structure (ps : list product) :
  forall last k,
    (forall c key, nth_error (groupedRows last ps) k
                   = Some (ProductCategoryRow c key) ->
       key = c
       /\ exists p, nth_error (groupedRows last ps) (S k)
                    = Some (ProductRow p (name p))
                    /\ category p = c)
    /\ (forall p key, nth_error (groupedRows last ps) k = Some (ProductRow p key) ->
          key = name p
          /\ forall p' key',
               nth_error (groupedRows last ps) (S k) = Some (ProductRow p' key') ->
               category p' = category p).
Proof.
  induction ps as [ | p0 ps IH]; intros last k.
  - split; intros; destruct k; discriminate.
  - cbn [groupedRows].
    assert (Hnext : forall q key',
               nth_error (groupedRows (category p0) ps) 0 = Some (ProductRow q key') ->
               category q = category p0).
    { destruct ps as [ | p1 ps']; [ discriminate | ].
      cbn [groupedRows].
      destruct (strict_eq (category p1) (category p0)) eqn:Heq; cbn [negb app nth_error].
      - intros q key' [= <- _]. apply strict_eq_true. exact Heq.
      - discriminate. }
    destruct (negb (strict_eq (category p0) last)); cbn [app].
    + destruct k as [ | [ | k]]; cbn [nth_error].
      * split; [ | discriminate ].
        intros c key [= <- <-]. split; [ reflexivity | ]. eauto.
      * split; [ discriminate | ].
        intros p key [= <- <-]. split; [ reflexivity | exact Hnext ].
      * apply IH.
    + destruct k as [ | k]; cbn [nth_error].
      * split; [ discriminate | ].
        intros p key [= <- <-]. split; [ reflexivity | exact Hnext ].
      * apply IH.
Qed.

Lemma rowHeaders_length (rows : list row) :
  length rows = length (rowHeaders rows) + length (rowProducts rows).
Proof.
  induction rows as [ | [c k | p k] rows IH]; simpl; lia.
Qed.

Lemma groupedRows_headers_le (ps : list product) :
  forall last, length (rowHeaders (groupedRows last ps)) <= length ps.
Proof.
  induction ps as [ | p ps IH]; intros last; [ simpl; lia | ].
  cbn [groupedRows]. specialize (IH (category p)).
  destruct (negb (strict_eq (category p) last)); simpl; lia.
Qed.

(** X21.  How the header rows sit in the table: a header row is always
    followed at once by a product row of the category it names (so there
    are never two headers in a row and never a header at the end); a
    product row that follows a product row has the same category; headers
    are keyed by their category and product rows by the product name; and
    there are never more headers than product rows. *)
Theorem tableRows_header_structure
    (ps : list product) (ft : string) (so : bool) (k : nat) :
  k < length (tableRows toLowerCase ps ft so) ->
  match nth_error (tableRows toLowerCase ps ft so) k with
  | Some (ProductCategoryRow c key) =>
      key = c
      /\ exists p, nth_error (tableRows toLowerCase ps ft so) (S k)
                   = Some (ProductRow p (name p))
                   /\ category p = c
  | Some (ProductRow p key) =>
      key = name p
      /\ forall p' key',
           nth_error (tableRows toLowerCase ps ft so) (S k)
           = Some (ProductRow p' key') ->
           category p' = category p
  | None => False
  end
  /\ length (rowHeaders (tableRows toLowerCase ps ft so))
     <= length (rowProducts (tableRows toLowerCase ps ft so))
  /\ length (tableRows toLowerCase ps ft so)
     <= 2 * length (filter (shownProduct toLowerCase ft so) ps).
Proof.
  intros Hk. rewrite tableRows_grouped in *.
  destruct (groupedRows_structure
              (filter (shownProduct toLowerCase ft so) ps) VNull k)
    as [Hhead Hprod].
  assert (Hle := groupedRows_headers_le
                   (filter (shownProduct toLowerCase ft so) ps) VNull).
  assert (Hsum := rowHeaders_length
                    (groupedRows VNull (filter (shownProduct toLowerCase ft so) ps))).
  rewrite rowProducts_grouped in *.
  split; [ | split; lia ].
  destruct (nth_error _ k) as [[c key | p key] | ] eqn:Hrow.
  - apply Hhead. reflexivity.
  - apply Hprod. reflexivity.
  - apply nth_error_None in Hrow. lia.
Qed.

End ProductTableFacts.

Lemma tableRows_show_matching_products_witness :
  rowProducts (ProductTable.tableRows asciiToLowerCase
                 ProductTable.PRODUCTS "P" true)
  = [ ProductTable.mkProduct (VStr "Fruits") (VStr "$1") (VBool true) "Apple";
      ProductTable.mkProduct (VStr "Vegetables") (VStr "$2") (VBool true) "Spinach";
      ProductTable.mkProduct (VStr "Vegetables") (VStr "$1") (VBool true) "Peas" ].
Proof.
  rewrite (proj1 (tableRows_show_matching_products asciiToLowerCase
                    ProductTable.PRODUCTS "P" true)).
  reflexivity.
Defined.

Lemma tableRows_of_shown_products_witness :
  ProductTable.tableRows asciiToLowerCase
    [ ProductTable.mkProduct (VStr "Fruits") (VStr "$1") (VBool true) "Apple";
      ProductTable.mkProduct (VStr "Vegetables") (VStr "$2") (VBool true) "Spinach";
      ProductTable.mkProduct (VStr "Vegetables") (VStr "$1") (VBool true) "Peas" ]
    "" false
  = ProductTable.tableRows asciiToLowerCase ProductTable.PRODUCTS "P" true.
Proof.
  exact (tableRows_of_shown_products asciiToLowerCase
           ProductTable.PRODUCTS "P" true eq_refl).
Defined.

Lemma tableRows_header_structure_witness :
  exists p,
    nth_error (ProductTable.tableRows asciiToLowerCase
                 ProductTable.PRODUCTS "P" true) 3
    = Some (ProductTable.ProductRow p (ProductTable.name p))
    /\ ProductTable.category p = VStr "Vegetables".
Proof.
  destruct (tableRows_header_structure asciiToLowerCase
              ProductTable.PRODUCTS "P" true 2) as [Hrow _].
  - vm_compute. lia.
  - exact (proj2 Hrow).
Defined.

(** ** Entries of the history over time *)

Section HistoryEntries.

Lemma oneCellFilled_keeps_marks (b b' : board) (c : nat) :
  oneCellFilled b b' -> isMark (get b c) -> get b' c = get b c.
Proof.
  intros (_ & k & _ & Hnull & _ & Hothers) Hmark.
  apply Hothers. intros ->. rewrite Hnull in Hmark.
  destruct Hmark; discriminate.
Qed.

Lemma wellFormed_marks_persist (g : GameState) (j : nat) (b : board) (c : nat) :
  wellFormed g ->
  nth_error (history g) j = Some b ->
  isMark (get b c) ->
  forall d b',
    nth_error (history g) (j + d) = Some b' -> get b' c = get b c.
Proof.
  intros Hwf Hb Hmark. induction d as [ | d IH]; intros b' Hb'.
  - rewrite Nat.add_0_r in Hb'. congruence.
  - rewrite Nat.add_succ_r in Hb'.
    destruct (nth_error (history g) (j + d)) as [bd | ] eqn:Hbd.
    + specialize (IH bd eq_refl).
      rewrite <- IH. apply oneCellFilled_keeps_marks.
      * exact (wf_steps g Hwf (j + d) bd b' Hbd Hb').
      * rewrite IH. exact Hmark.
    + apply nth_error_None in Hbd.
      assert (S (j + d) < length (history g))
        by (apply nth_error_Some; congruence).
      lia.
Qed.

(** X22.  Entry 0 of the history of a running game is always the empty
    board, so jumping to the game start always shows nine empty cells,
    with X to move. *)
Theorem game_start_is_empty_board (g : GameState) :
  reachable g ->
  nth_error (history g) 0 = Some (fill 9 VNull)
  /\ dispatch (Jump 0) g = Returns (jumpTo 0 g)
  /\ currentSquares (jumpTo 0 g) = Some (fill 9 VNull)
  /\ status (xIsNext (currentMove (jumpTo 0 g))) (fill 9 VNull)
     = "Next Player: X".
Proof.
  intros Hreach.
  assert (Hwf := reachable_well_formed g Hreach).
  destruct (nth_error (history g) 0) as [b0 | ] eqn:H0.
  - assert (Hlegal := reachable_boards_legal g Hreach 0 b0 H0).
    inversion Hlegal; subst.
    repeat split.
    unfold currentSquares, jumpTo, index. cbn [history currentMove].
    exact H0.
  - apply nth_error_None in H0. destruct (wf_cursor g Hwf). lia.
Qed.

(** X23.  A mark never changes or disappears along the history of a
    running game: a cell that holds a mark in entry [j] holds the same
    mark in every later entry. *)
Theorem marks_persist_in_later_entries
    (g : GameState) (j k c : nat) (b b' : board) :
  reachable g ->
  j <= k ->
  nth_error (history g) j = Some b ->
  nth_error (history g) k = Some b' ->
  isMark (get b c) ->
  get b' c = get b c.
Proof.
  intros Hreach Hjk Hb Hb' Hmark.
  apply (wellFormed_marks_persist g j b c (reachable_well_formed g Hreach)
           Hb Hmark (k - j)).
  replace (j + (k - j)) with k by lia. exact Hb'.
Qed.

End HistoryEntries.

Lemma game_start_is_empty_board_witness :
  currentSquares (jumpTo 0 topRowWon) = Some (fill 9 VNull).
Proof.
  exact (proj1 (proj2 (proj2 (game_start_is_empty_board topRowWon
                                topRowWon_reachable)))).
Defined.

Lemma marks_persist_in_later_entries_witness :
  get topRowBoard 4 = VStr "O".
Proof.
  rewrite (marks_persist_in_later_entries topRowWon 2 5 4
             [VStr "X"; VNull; VNull; VNull; VStr "O"; VNull; VNull; VNull; VNull]
             topRowBoard topRowWon_reachable);
    [ reflexivity | lia | reflexivity | reflexivity | right; reflexivity ].
Defined.

(** ** Header rows of grouped products *)

Section ProductTableHeaders.

Import ProductTable.

Variable toLowerCase : string -> string.







End ProductTableHeaders.

